(** * Voice assistant: wake / capture / dispatch loop

    A shallow embedding of the Python package [assistant] (modules
    [wake], [audio_io], [brain], [intents], [llm], [scrypted], [vlm])
    and the properties of its trigger detector, turn controller, WAV
    capture and tool routing.

    Conventions of the embedding.
    - Time stamps and scores are rationals ([Q]): the code compares
      them and subtracts one time stamp from another, nothing else.
    - The duration of a capture and the amplitudes it records are IEEE
      754 floats ([spec_float]: binary64 for Python's [float], binary32
      for the [float32] array of [sd.rec]); every product is rounded as
      the machine rounds it, and [int(x)] is truncation toward zero.
    - Module globals ([wake._LAST_TRIGGER], [brain.last_transcript],
      [brain.last_response]) are fields of one explicit [state] that
      every function threads.
    - Calls into collaborators outside the package (sounddevice,
      keyboard, openwakeword, whisper, the TTS command line, HTTP) are
      answered by an oracle: a value the environment supplies for that
      call, either a result or a raised exception.
    - Every call to a collaborator that matters for a property is
      recorded in a trace, in program order.
    - A function that waits for input which the observed prefix of the
      environment does not contain is [Blocked]: it has neither
      returned nor raised. *)

From Stdlib Require Import QArith Qabs ZArith Lia Lqa SpecFloat.
From stdpp Require Import base option list strings gmap.

Set Warnings "-register-all".
Local Open Scope Z_scope.

(** ** Python values, exceptions and outcomes *)

Module Py.

(** Exceptions carry their class name and message.  [except Exception]
    catches instances of [Exception]; [KeyboardInterrupt] and
    [SystemExit] derive from [BaseException] only and escape it. *)
Inductive exn :=
| Exception (cls msg : string)
| BaseException (cls msg : string).

Definition catchable (e : exn) : bool :=
  match e with
  | Exception _ _ => true
  | BaseException _ _ => false
  end.

Definition RuntimeError (msg : string) : exn := Exception "RuntimeError" msg.
Definition ValueError (msg : string) : exn := Exception "ValueError" msg.
Definition OverflowError (msg : string) : exn :=
  Exception "OverflowError" msg.

(** What an external call gives back. *)
Inductive result (A : Type) :=
| Ok (a : A)
| Err (e : exn).
Arguments Ok {A} a.
Arguments Err {A} e.

(** What a modelled function does on an observed prefix of its
    environment. *)
Inductive outcome (A : Type) :=
| Ret (a : A)
| Raise (e : exn)
| Blocked.
Arguments Ret {A} a.
Arguments Raise {A} e.
Arguments Blocked {A}.

Definition exited {A} (o : outcome A) : bool :=
  match o with
  | Blocked => false
  | _ => true
  end.

(** [x > y] on floats. *)
Definition Qgtb (x y : Q) : bool := negb (Qle_bool x y).

(** [float(z)] for an [int], as [float * int] converts its right
    operand: the nearest binary64 value, ties to even, and
    [OverflowError] for an [int] beyond the largest finite float. *)
Definition float_of_int (z : Z) : result spec_float :=
  match binary_normalize 53 1024 z 0 false with
  | S754_infinity _ =>
      Err (OverflowError "int too large to convert to float")
  | x => Ok x
  end.

(** [x * y] on floats: the product rounded to binary64. *)
Definition float_mul (x y : spec_float) : spec_float := SFmul 53 1024 x y.

(** The integral part of a finite float, toward zero. *)
Definition trunc (x : spec_float) : Z :=
  match x with
  | S754_finite s m e =>
      let v := if 0 <=? e then Z.pos m * 2 ^ e else Z.pos m / 2 ^ (- e) in
      if s then - v else v
  | _ => 0
  end.

(** [int(x)] on a float. *)
Definition int (x : spec_float) : result Z :=
  match x with
  | S754_nan => Err (ValueError "cannot convert float NaN to integer")
  | S754_infinity _ =>
      Err (OverflowError "cannot convert float infinity to integer")
  | _ => Ok (trunc x)
  end.

(** The number a finite float stands for. *)
Definition float_value (x : spec_float) : Q :=
  match x with
  | S754_finite s m e =>
      let v := if 0 <=? e
               then inject_Z (Z.pos m * 2 ^ e)
               else (inject_Z (Z.pos m) / inject_Z (2 ^ (- e)))%Q in
      if s then (- v)%Q else v
  | _ => 0%Q
  end.

End Py.
Export Py.

(** ** config.py *)

Record config := {
  SCRYPTED_URL : option string;
  SCRYPTED_TOKEN : option string;
  WAKEWORD : string;
  VOICE : string;
  DEVICE_IDS : gmap string string;
  USE_PUSH_TO_TALK : bool;
  PTT_KEY : string
}.

(** The process environment: the configuration after start-up and
    whether [import openwakeword] succeeded ([false] stands for the
    module-level [openwakeword = None]). *)
Record env := {
  cfg : config;
  openwakeword : bool
}.

(** ** Program state and trace *)

Inductive event :=
| StreamOpen                    (* sd.InputStream(...) *)
| StreamStart                   (* stream.start() *)
| StreamStop                    (* stream.stop() *)
| StreamClose                   (* stream.close() *)
| QueueGet                      (* q.get() returned a chunk *)
| KeyWait                       (* keyboard.wait(PTT_KEY) *)
| IsPressed                     (* keyboard.is_pressed(PTT_KEY) *)
| ListenForWake                 (* wake.listen_for_wake() entered *)
| RecordSeconds                 (* audio_io.record_seconds() *)
| Transcribe (wav : string)     (* stt.transcribe(wav, model) *)
| HandleCommand (text : string) (* intents.handle_command(text) *)
| Speak (text : string)         (* tts.speak(text) *)
| LogInfo (msg arg : string)    (* logger.info(msg, arg) *)
| LogException (e : exn).       (* logger.exception(..., exc) *)

Record state := {
  LAST_TRIGGER : Q;                 (* wake._LAST_TRIGGER *)
  last_transcript : option string;  (* brain.last_transcript *)
  last_response : option string;    (* brain.last_response *)
  trace : list event
}.

Definition log (ev : event) (st : state) : state :=
  {| LAST_TRIGGER := LAST_TRIGGER st;
     last_transcript := last_transcript st;
     last_response := last_response st;
     trace := trace st ++ [ev] |}.

Definition set_LAST_TRIGGER (t : Q) (st : state) : state :=
  {| LAST_TRIGGER := t;
     last_transcript := last_transcript st;
     last_response := last_response st;
     trace := trace st |}.

Definition set_last_transcript (s : string) (st : state) : state :=
  {| LAST_TRIGGER := LAST_TRIGGER st;
     last_transcript := Some s;
     last_response := last_response st;
     trace := trace st |}.

Definition set_last_response (s : string) (st : state) : state :=
  {| LAST_TRIGGER := LAST_TRIGGER st;
     last_transcript := last_transcript st;
     last_response := Some s;
     trace := trace st |}.

(** The state of a freshly imported package. *)
Definition initial_state : state :=
  {| LAST_TRIGGER := 0;
     last_transcript := None;
     last_response := None;
     trace := [] |}.

(** ** audio_io.py: the streaming microphone *)

Module AudioIO.

(** [microphone_stream()].  [mic] answers [sd.InputStream(...)]: when
    the device cannot be opened the constructor raises and no stream
    exists.  [start] answers [stream.start()] on the stream that was
    opened: when it raises, the exception leaves [microphone_stream]
    and the stream stays open, since nothing here closes it.
    ([stream.stop()] and [stream.close()] ignore errors by default and
    do not raise.) *)
Definition microphone_stream (mic start : result unit) (st : state)
  : outcome unit * state :=
  match mic with
  | Err e => (Raise e, st)
  | Ok _ =>
      let st := log StreamStart (log StreamOpen st) in
      match start with
      | Err e => (Raise e, st)
      | Ok _ => (Ret tt, st)
      end
  end.

(** *** WAV containers and the temporary-file store *)

(** What [wave] persists: the header fields and the data chunk, a
    list of bytes (each in 0..255). *)
Record wav_file := {
  nchannels : Z;
  sampwidth : Z;
  framerate : Z;
  frames_data : list Z
}.

(** [Wave_read.getnframes()]: data length over the frame size. *)
Definition getnframes (w : wav_file) : Z :=
  Z.of_nat (length (frames_data w)) / (nchannels w * sampwidth w).

(** [Wave_read.readframes(n)]: at most [n] frames of raw bytes. *)
Definition readframes (w : wav_file) (n : Z) : list Z :=
  take (Z.to_nat (n * (nchannels w * sampwidth w))) (frames_data w).

(** [astype(np.int16)] on an integral value: two's complement
    wrap-around into -32768..32767. *)
Definition wrap16 (z : Z) : Z := (z + 32768) mod 65536 - 32768.

(** One sample of [(data * 32767).astype(np.int16)].  [data] is the
    [float32] array of [sd.rec], so the product is rounded to binary32;
    the conversion then drops the fraction.  C leaves the conversion
    undefined for a value outside -32768..32767, an infinity or a NaN:
    [cast] is what the platform makes of it, some 16-bit integer. *)
Definition to_int16 (cast : spec_float -> Z) (x : spec_float) : Z :=
  let y := SFmul 24 128 x (binary_normalize 24 128 32767 0 false) in
  match y with
  | S754_zero _ | S754_finite _ _ _ =>
      if (-32768 <=? trunc y) && (trunc y <=? 32767)
      then trunc y
      else wrap16 (cast y)
  | _ => wrap16 (cast y)
  end.

(** [tobytes()] of one int16, little-endian. *)
Definition int16_bytes (z : Z) : list Z :=
  let u := z mod 65536 in [u mod 256; u / 256].

Definition tobytes (samples : list Z) : list Z :=
  flat_map int16_bytes samples.

(** [np.frombuffer(data, dtype=np.int16)]: [None] stands for the
    [ValueError] on a buffer whose size is not a multiple of 2. *)
Fixpoint frombuffer_int16 (data : list Z) : option (list Z) :=
  match data with
  | [] => Some []
  | lo :: hi :: rest =>
      match frombuffer_int16 rest with
      | Some l => Some (wrap16 (lo + 256 * hi) :: l)
      | None => None
      end
  | [_] => None
  end.

(** The files on disk ([None]: a file that holds no WAV container,
    such as the empty file a fresh temporary name refers to) and the
    calls to [sd.play(samples, rate)]. *)
Record audio := {
  files : gmap string (option wav_file);
  played : list (list Z * Z)
}.

(** How the environment answers one [record_seconds]: [rec_signal]
    is [sd.rec(...)] (the amplitude of the i-th sample of the
    row-major [frames] x [channels] array it returns), [rec_cast] the
    platform's conversion of an out-of-range float to [int16], [rec_tmp]
    the name picked by [tempfile.NamedTemporaryFile]. *)
Record recording := {
  rec_signal : result (nat -> spec_float);
  rec_cast : spec_float -> Z;
  rec_tmp : result string
}.

Definition WaveError (msg : string) : exn := Exception "wave.Error" msg.

(** [frames = int(seconds * samplerate)]: the rate is converted to a
    float, the product is rounded to binary64 and then truncated. *)
Definition rec_frames (seconds : spec_float) (samplerate : Z) : result Z :=
  match float_of_int samplerate with
  | Err e => Err e
  | Ok rate => int (float_mul seconds rate)
  end.

(** [record_seconds(seconds, samplerate, channels)].  An array with a
    negative number of frames cannot be allocated ([ValueError]);
    [setnchannels] rejects a value below 1 and [setframerate] a value
    not above 0 ([wave.Error]), which leaves the temporary file
    without a container. *)
Definition record_seconds (o : recording) (seconds : spec_float)
    (samplerate channels : Z) (a : audio) : outcome string * audio :=
  match rec_frames seconds samplerate with
  | Err e => (Raise e, a)
  | Ok frames =>
      if frames <? 0
      then (Raise (ValueError "negative dimensions are not allowed"), a)
      else
        match rec_signal o with
        | Err e => (Raise e, a)
        | Ok signal =>
            let data := map signal (seq 0 (Z.to_nat (frames * channels))) in
            match rec_tmp o with
            | Err e => (Raise e, a)
            | Ok path =>
                let a := {| files := <[path := None]> (files a);
                            played := played a |} in
                if channels <? 1
                then (Raise (WaveError "bad # of channels"), a)
                else if samplerate <=? 0
                then (Raise (WaveError "bad frame rate"), a)
                else
                  let w :=
                    {| nchannels := channels;
                       sampwidth := 2;
                       framerate := samplerate;
                       frames_data :=
                         tobytes (map (to_int16 (rec_cast o)) data) |} in
                  (Ret path,
                   {| files := <[path := Some w]> (files a);
                      played := played a |})
            end
        end
  end.

(** The float 4.0. *)
Definition default_seconds : spec_float :=
  S754_finite false 4503599627370496 (-50).
Definition default_samplerate : Z := 16000.
Definition default_channels : Z := 1.

(** [play_wav(path)].  [wave.open] rejects a header without channels
    or sample width.  [out] answers [sd.play(samples, rate)] and the
    [sd.wait()] after it; the call is recorded whether it succeeds or
    raises. *)
Definition play_wav (out : result unit) (path : string) (a : audio)
  : outcome unit * audio :=
  match files a !! path with
  | None => (Raise (Exception "FileNotFoundError" path), a)
  | Some None => (Raise (Exception "EOFError" path), a)
  | Some (Some wf) =>
      if (nchannels wf <? 1) || (sampwidth wf <? 1)
      then (Raise (WaveError "bad # of channels or sample width"), a)
      else
        let data := readframes wf (getnframes wf) in
        match frombuffer_int16 data with
        | None =>
            (Raise
               (ValueError "buffer size must be a multiple of element size"),
             a)
        | Some samples =>
            let a := {| files := files a;
                        played := played a ++ [(samples, framerate wf)] |} in
            match out with
            | Ok _ => (Ret tt, a)
            | Err e => (Raise e, a)
            end
        end
  end.

End AudioIO.

(** ** wake.py *)

Module Wake.

(** One pass through the body of the detection loop, as the
    environment answers it: [model.predict(data)], [time.time()] and
    [keyboard.is_pressed(PTT_KEY)]. *)
Record iteration := {
  it_predict : result (gmap string Q);
  it_now : Q;
  it_pressed : bool
}.

(** One call of [listen_for_wake], as the environment answers it.
    [ep_wait]: [keyboard.wait(PTT_KEY)] returns and the following
    [time.time()] reads [t] ([Some (Ok t)]), or it raises
    ([Some (Err x)]: a key name the library does not know, no
    permission to read the keyboard, an interrupt), or the key is not
    pressed in the observed prefix ([None]). *)
Record episode := {
  ep_wait : option (result Q);
  ep_model : result unit;      (* openwakeword.Model(wakewords=[WAKEWORD]) *)
  ep_mic : result unit;        (* sd.InputStream(...) *)
  ep_start : result unit;      (* stream.start() *)
  ep_iters : list iteration
}.

Definition default_threshold : Q := 3 # 4.

(** The [while True] loop of [listen_for_wake]; an exhausted list of
    iterations is a [q.get()] that has not returned yet. *)
Fixpoint wake_loop (threshold : Q) (c : config) (its : list iteration)
    (st : state) : outcome string * state :=
  match its with
  | [] => (Blocked, st)
  | it :: rest =>
      let st := log QueueGet st in
      match it_predict it with
      | Err e => (Raise e, st)
      | Ok scores =>
          let score := default 0%Q (scores !! WAKEWORD c) in
          let now := it_now it in
          if Qgtb score threshold && Qgtb (now - LAST_TRIGGER st) 1
          then (Ret "wakeword"%string, set_LAST_TRIGGER now st)
          else
            let st := log IsPressed st in
            if it_pressed it && Qgtb (now - LAST_TRIGGER st) 1
            then (Ret "push_to_talk"%string, set_LAST_TRIGGER now st)
            else wake_loop threshold c rest st
      end
  end.

(** The [finally] clause: it runs when the loop is left, by [return]
    or by an exception, and not while the loop is still waiting. *)
Definition finally_close (r : outcome string * state)
  : outcome string * state :=
  match r with
  | (Blocked, st) => (Blocked, st)
  | (o, st) => (o, log StreamClose (log StreamStop st))
  end.

Definition listen_for_wake (threshold : Q) (e : env) (ep : episode)
    (st : state) : outcome string * state :=
  if USE_PUSH_TO_TALK (cfg e) then
    let st := log KeyWait st in
    match ep_wait ep with
    | None => (Blocked, st)
    | Some (Ok t) => (Ret "push_to_talk"%string, set_LAST_TRIGGER t st)
    | Some (Err x) => (Raise x, st)
    end
  else if negb (openwakeword e) then
    (Raise (RuntimeError "openwakeword not available"), st)
  else
    match ep_model ep with
    | Err x => (Raise x, st)
    | Ok _ =>
        match AudioIO.microphone_stream (ep_mic ep) (ep_start ep) st with
        | (Ret _, st) =>
            finally_close (wake_loop threshold (cfg e) (ep_iters ep) st)
        | (Raise x, st) => (Raise x, st)
        | (Blocked, st) => (Blocked, st)
        end
    end.

(** The trigger events a caller obtains from successive calls of
    [listen_for_wake], each with the time stamp it fired at.  A call
    that raises is followed by the next call (the turn loop catches
    and retries); a call that is still blocked is the last one. *)
Fixpoint triggers (threshold : Q) (e : env) (eps : list episode)
    (st : state) : list (string * Q) :=
  match eps with
  | [] => []
  | ep :: rest =>
      match listen_for_wake threshold e ep st with
      | (Ret kind, st') =>
          (kind, LAST_TRIGGER st') :: triggers threshold e rest st'
      | (Raise _, st') => triggers threshold e rest st'
      | (Blocked, _) => []
      end
  end.

End Wake.

(** ** brain.py *)

Module Brain.

(** The functions of the package thread [state]; [M A] is such a
    function with a result of type [A]. *)
Definition M (A : Type) : Type := state -> outcome A * state.

#[export] Instance M_ret : MRet M := fun A a st => (Ret a, st).

#[export] Instance M_bind : MBind M := fun A B f m st =>
  match m st with
  | (Ret a, st') => f a st'
  | (Raise e, st') => (Raise e, st')
  | (Blocked, st') => (Blocked, st')
  end.

(** A call to a collaborator: recorded, then answered. *)
Definition call {A} (ev : event) (r : result A) : M A := fun st =>
  match r with
  | Ok a => (Ret a, log ev st)
  | Err e => (Raise e, log ev st)
  end.

Definition tell (ev : event) : M unit := fun st => (Ret tt, log ev st).

Definition assign (f : state -> state) : M unit := fun st => (Ret tt, f st).

(** One iteration of the interaction loop, as the environment
    answers it. *)
Record turn := {
  t_episode : Wake.episode;      (* wake.listen_for_wake() *)
  t_record : result string;      (* audio_io.record_seconds() *)
  t_transcribe : result string;  (* stt.transcribe(wav, stt_model) *)
  t_command : result string;     (* intents.handle_command(transcript) *)
  t_speak : result unit;         (* tts.speak(response) *)
  t_apology : result unit        (* tts.speak("Sorry, ...") *)
}.

Definition apology : string := "Sorry, something went wrong".

(** [Brain.run_once]. *)
Definition run_once (e : env) (t : turn) : M unit :=
  tell ListenForWake ;;
  Wake.listen_for_wake Wake.default_threshold e (t_episode t) ;;
  wav ← call RecordSeconds (t_record t) ;
  tell (LogInfo "recorded audio at %s" wav) ;;
  text ← call (Transcribe wav) (t_transcribe t) ;
  assign (set_last_transcript text) ;;
  tell (LogInfo "transcript: %s" text) ;;
  response ← call (HandleCommand text) (t_command t) ;
  assign (set_last_response response) ;;
  tell (LogInfo "response: %s" response) ;;
  call (Speak response) (t_speak t).

(** Where the [while True] loop of [run] stands after the observed
    turns: still iterating, waiting inside [listen_for_wake], or left
    through an exception that no handler caught. *)
Inductive loop_status :=
| Running
| Waiting
| Exited (e : exn).

(** [Brain.run], one list element per loop iteration. *)
Fixpoint run (e : env) (turns : list turn) (st : state)
  : loop_status * state :=
  match turns with
  | [] => (Running, st)
  | t :: rest =>
      match run_once e t st with
      | (Ret _, st) => run e rest st
      | (Blocked, st) => (Waiting, st)
      | (Raise exc, st) =>
          if catchable exc then
            let st := log (LogException exc) st in
            match call (Speak apology) (t_apology t) st with
            | (Raise e2, st) =>
                if catchable e2 then run e rest st else (Exited e2, st)
            | (_, st) => run e rest st
            end
          else (Exited exc, st)
      end
  end.

End Brain.

(** ** JSON values, as [json.loads] and [resp.json()] produce them *)

Module Json.

Inductive value :=
| Null
| Bool (b : bool)
| Int (z : Z)
| Float (q : Q)
| Str (s : string)
| Arr (l : list value)
| Obj (m : gmap string value).

(** Python truth value: [None], [False], zero, the empty string, list
    and dict are falsy. *)
Definition truthy (v : value) : bool :=
  match v with
  | Null => false
  | Bool b => b
  | Int z => negb (z =? 0)
  | Float q => negb (Qeq_bool q 0)
  | Str s => negb (String.eqb s "")
  | Arr l => match l with [] => false | _ => true end
  | Obj m => negb (bool_decide (m = ∅))
  end.

(** [v == s] for a string literal [s]. *)
Definition eq_str (v : value) (s : string) : bool :=
  match v with
  | Str s' => String.eqb s' s
  | _ => false
  end.

(** The exception [json.loads] raises on a text that is not JSON, and
    the test of [except json.JSONDecodeError]. *)
Definition JSONDecodeError (msg : string) : exn :=
  Exception "json.JSONDecodeError" msg.

Definition is_JSONDecodeError (e : exn) : bool :=
  match e with
  | Exception cls _ => String.eqb cls "json.JSONDecodeError"
  | BaseException _ _ => false
  end.

(** [v.get(k, d)]: only a dict has the method. *)
Definition get (v : value) (k : string) (d : value) : result value :=
  match v with
  | Obj m => Ok (default d (m !! k))
  | _ => Err (Exception "AttributeError" "object has no attribute 'get'")
  end.

End Json.

(** ** HTTP, as [requests] performs it *)

Module Net.
Import Json.

Inductive request :=
| ScryptedSnapshot (device_id : value)
    (* GET {SCRYPTED_URL}/api/devices/{device_id}/snapshot *)
| ScryptedArm (device_id : value)
    (* POST {SCRYPTED_URL}/api/devices/{device_id}/arm *)
| OllamaGenerate (payload : gmap string value)
    (* POST {OLLAMA_URL}/api/generate *)
| OllamaChat (prompt : value) (image : list Z).
    (* POST {OLLAMA_URL}/api/chat, model llava *)

Record response := {
  status_code : Z;
  content : list Z;
  body : result value   (* resp.json() *)
}.

(** The network: what each request is answered with, or the
    transport error it raises. *)
Definition network := request -> result response.

(** Requests sent, and tool blocks handed to the tool handler. *)
Inductive net_event :=
| Http (r : request)
| ToolCall (block : gmap string value).

Definition is_http (ev : net_event) : bool :=
  match ev with
  | Http _ => true
  | ToolCall _ => false
  end.

Definition is_tool_call (ev : net_event) : bool :=
  match ev with
  | Http _ => false
  | ToolCall _ => true
  end.

Definition N (A : Type) : Type :=
  list net_event -> result A * list net_event.

#[export] Instance N_ret : MRet N := fun A a tr => (Ok a, tr).

#[export] Instance N_bind : MBind N := fun A B f m tr =>
  match m tr with
  | (Ok a, tr') => f a tr'
  | (Err e, tr') => (Err e, tr')
  end.

Definition lift {A} (r : result A) : N A := fun tr => (r, tr).

Definition http (net : network) (r : request) : N response := fun tr =>
  (net r, tr ++ [Http r]).

(** [resp.raise_for_status()]. *)
Definition raise_for_status (resp : response) : N unit :=
  if (400 <=? status_code resp) && (status_code resp <? 600)
  then lift (Err (Exception "HTTPError" "status"))
  else mret tt.

End Net.

(** ** scrypted.py *)

Module Scrypted.
Import Json Net.

Definition _headers (c : config) : result string :=
  match SCRYPTED_TOKEN c with
  | None => Err (RuntimeError "SCRYPTED_TOKEN is not configured")
  | Some tok =>
      if String.eqb tok ""
      then Err (RuntimeError "SCRYPTED_TOKEN is not configured")
      else Ok ("Bearer " +:+ tok)
  end.

Definition snapshot (c : config) (net : network) (device_id : value)
  : N (list Z) :=
  _ ← lift (_headers c) ;
  resp ← http net (ScryptedSnapshot device_id) ;
  raise_for_status resp ;;
  mret (content resp).

Definition arm (c : config) (net : network) (device_id : value)
  : N bool :=
  _ ← lift (_headers c) ;
  resp ← http net (ScryptedArm device_id) ;
  if status_code resp =? 404 then mret false
  else raise_for_status resp ;; mret true.

End Scrypted.

(** ** vlm.py *)

Module Vlm.
Import Json Net.

Definition analyze_image (net : network) (prompt : value)
    (image_bytes : list Z) : N value :=
  resp ← http net (OllamaChat prompt image_bytes) ;
  raise_for_status resp ;;
  j ← lift (body resp) ;
  message ← lift (get j "message" (Obj ∅)) ;
  lift (get message "content" (Str "")).

End Vlm.

(** ** intents.py *)

Module Intents.
Import Json Net.

(** [handle_tool(block)]. *)
Definition handle_tool (c : config) (net : network)
    (block : gmap string value) : N value :=
  let tool := default Null (block !! "tool") in
  let args := default (Obj ∅) (block !! "args") in
  if eq_str tool "scrypted.snapshot" then
    device_id ← lift (get args "device_id" Null) ;
    if negb (truthy device_id) then mret (Str "device_id missing")
    else
      image ← Scrypted.snapshot c net device_id ;
      prompt ← lift (get args "prompt" (Str "Describe the snapshot")) ;
      Vlm.analyze_image net prompt image
  else if eq_str tool "scrypted.arm" then
    device_id ← lift (get args "device_id" Null) ;
    if negb (truthy device_id) then mret (Str "device_id missing")
    else
      ok ← Scrypted.arm c net device_id ;
      mret (Str (if ok : bool then "Armed" else "Unable to arm"))
  else mret (Str "Unknown tool").

End Intents.

(** ** llm.py *)

Module Llm.
Import Json Net.

Section WithJsonLoads.

(** [json.loads] on a string: the value it decodes to, or the
    exception it raises -- [json.JSONDecodeError] on a text that is not
    JSON, and also [ValueError] on an integer literal of more digits
    than [int] converts, or [RecursionError] on nesting deeper than the
    interpreter's stack. *)
Variable json_loads : string -> result value.

Definition _route_tool (c : config) (net : network)
    (block : gmap string value) : N value := fun tr =>
  Intents.handle_tool c net block (tr ++ [ToolCall block]).

(** The request body [chat] builds: [system] is added when it is
    neither [None] nor empty. *)
Definition payload (prompt : string) (system : option string)
  : gmap string value :=
  let payload : gmap string value :=
    <["model" := Str "llama3.1"]> (<["prompt" := Str prompt]> ∅) in
  match system with
  | Some s =>
      if String.eqb s "" then payload
      else <["system" := Str s]> payload
  | None => payload
  end.

(** [chat(prompt, system)].  [json.loads] of a response that is
    not a string raises [TypeError]; the handler catches
    [json.JSONDecodeError] and nothing else, so that and any other
    exception of [json.loads] leaves [chat]. *)
Definition chat (c : config) (net : network) (prompt : string)
    (system : option string) : N value :=
  resp ← http net (OllamaGenerate (payload prompt system)) ;
  raise_for_status resp ;;
  j ← lift (body resp) ;
  text ← lift (get j "response" (Str "")) ;
  match text with
  | Str s =>
      match json_loads s with
      | Err e => if is_JSONDecodeError e then mret text else lift (Err e)
      | Ok (Obj block) =>
          match block !! "tool" with
          | Some _ => _route_tool c net block
          | None => mret text
          end
      | Ok _ => mret text
      end
  | _ => lift (Err (Exception "TypeError"
                      "the JSON object must be str, bytes or bytearray"))
  end.

End WithJsonLoads.

End Llm.

(** ** Python strings *)

Module PyStr.

(** Texts are byte strings.  On ASCII text -- every character below
    128 -- a byte is a code point, and case mapping and white space are
    what Python's are.  Outside ASCII [str.lower()] also maps letters
    such as U+00DC, and [str.strip()] also removes white space such as
    U+00A0, which [lower] and [strip] below do not: a property that
    depends on what they return is stated for ASCII text, unless it
    uses of them only what holds of Python's functions on any text. *)
Definition is_ascii_char (c : Ascii.ascii) : bool :=
  (Ascii.nat_of_ascii c <? 128)%nat.

(** [s.isascii()]. *)
Fixpoint isascii (s : string) : bool :=
  match s with
  | EmptyString => true
  | String c rest => is_ascii_char c && isascii rest
  end.

(** [c.lower()] for one character. *)
Definition lower_ascii (c : Ascii.ascii) : Ascii.ascii :=
  let n := Ascii.nat_of_ascii c in
  if ((65 <=? n) && (n <=? 90))%nat then Ascii.ascii_of_nat (n + 32) else c.

(** [s.lower()]. *)
Fixpoint lower (s : string) : string :=
  match s with
  | EmptyString => EmptyString
  | String c rest => String (lower_ascii c) (lower rest)
  end.

(** [c.isspace()]: tab, line feed, vertical tab, form feed, carriage
    return, the four separators 0x1c..0x1f and the space. *)
Definition isspace (c : Ascii.ascii) : bool :=
  let n := Ascii.nat_of_ascii c in
  (((9 <=? n) && (n <=? 13)) || ((28 <=? n) && (n <=? 32)))%nat.

Fixpoint lstrip (s : string) : string :=
  match s with
  | EmptyString => EmptyString
  | String c rest => if isspace c then lstrip rest else s
  end.

Fixpoint rstrip (s : string) : string :=
  match s with
  | EmptyString => EmptyString
  | String c rest =>
      match rstrip rest with
      | EmptyString => if isspace c then EmptyString else String c EmptyString
      | kept => String c kept
      end
  end.

(** [s.strip()]. *)
Definition strip (s : string) : string := rstrip (lstrip s).

(** [sep.join(parts)]. *)
Fixpoint join (sep : string) (parts : list string) : string :=
  match parts with
  | [] => EmptyString
  | [p] => p
  | p :: rest => p +:+ sep +:+ join sep rest
  end.

(** What is left of [s] after the literal [lit], when [s] starts with
    it. *)
Fixpoint after_literal (lit s : string) : option string :=
  match lit, s with
  | EmptyString, _ => Some s
  | String a lit', String b s' =>
      if Ascii.eqb a b then after_literal lit' s' else None
  | String _ _, EmptyString => None
  end.

Definition newline : Ascii.ascii := Ascii.ascii_of_nat 10.

(** The group of [(.+?)] followed by the literal [suffix], matched at
    the start of [s]: the shortest run of one or more characters other
    than a line feed that [suffix] follows. *)
Fixpoint lazy_group (suffix s : string) : option string :=
  match s with
  | EmptyString => None
  | String c rest =>
      if Ascii.eqb c newline then None
      else
        match after_literal suffix rest with
        | Some _ => Some (String c EmptyString)
        | None =>
            match lazy_group suffix rest with
            | Some g => Some (String c g)
            | None => None
            end
        end
  end.

(** The pattern [prefix(.+?)suffix] matched at the start of [s]. *)
Definition match_here (prefix suffix s : string) : option string :=
  match after_literal prefix s with
  | Some rest => lazy_group suffix rest
  | None => None
  end.

(** [re.search(prefix + "(.+?)" + suffix, s)] for literal [prefix] and
    [suffix]: group 1 of the leftmost match, or [None]. *)
Fixpoint re_search (prefix suffix s : string) : option string :=
  match match_here prefix suffix s with
  | Some g => Some g
  | None =>
      match s with
      | EmptyString => None
      | String _ rest => re_search prefix suffix rest
      end
  end.

End PyStr.

(** ** intents.py: routing a command *)

Module Commands.
Import Json Net PyStr.

(** [_resolve(room)]. *)
Definition _resolve (c : config) (room : string) : option string :=
  DEVICE_IDS c !! lower room.

(** [not device_id] for what [_resolve] returns. *)
Definition no_device (device_id : option string) : bool :=
  match device_id with
  | None => true
  | Some d => String.eqb d ""
  end.

Section WithJsonLoads.

Variable json_loads : string -> result value.

(** [handle_command(text)]. *)
Definition handle_command (c : config) (net : network) (text : string)
  : N value :=
  let text_low := lower text in
  match re_search "describe " " camera" text_low with
  | Some g =>
      let room := strip g in
      let device_id := _resolve c room in
      if no_device device_id
      then mret (Str ("Unknown device for " +:+ room))
      else
        image ← Scrypted.snapshot c net (Str (default "" device_id)) ;
        Vlm.analyze_image net
          (Str ("Describe the " +:+ room +:+ " camera")) image
  | None =>
      match re_search "arm " " camera" text_low with
      | Some g =>
          let room := strip g in
          let device_id := _resolve c room in
          if no_device device_id
          then mret (Str ("Unknown device for " +:+ room))
          else
            ok ← Scrypted.arm c net (Str (default "" device_id)) ;
            mret (Str (if ok : bool then "Armed" else "Unable to arm"))
      | None => Llm.chat json_loads c net text None
      end
  end.

End WithJsonLoads.

End Commands.

(** ** stt.py *)

Module Stt.
Import PyStr.

(** [transcribe(wav_path, model_size)].  [segments] answers
    [_get_model(model_size)] and [model.transcribe(wav_path)] together:
    the texts of the segments that are yielded, or the exception that
    loading the model or decoding raises. *)
Definition transcribe (segments : result (list string)) : result string :=
  match segments with
  | Ok segs => Ok (join " " (map strip segs))
  | Err e => Err e
  end.

End Stt.

(** ** tts.py *)

Module Tts.
Import AudioIO.

(** The machine [speak] runs on: which engines [shutil.which] finds,
    and what [subprocess.run(cmd, check=True)] does -- whether it
    returns or raises, and what it leaves on disk. *)
Record shell := {
  which_tts : bool;
  which_piper : bool;
  subprocess_run : list string ->
        result unit
        * (gmap string (option wav_file) -> gmap string (option wav_file))
}.

(** The disk and sound device, and the command lines run so far. *)
Record tts_state := {
  sound : audio;
  commands : list (list string)
}.

Definition out : string := "reply.wav".

(** [_run_cmd(cmd)]. *)
Definition _run_cmd (sh : shell) (cmd : list string) (s : tts_state)
  : outcome unit * tts_state :=
  let s' := {| sound := {| files := snd (subprocess_run sh cmd) (files (sound s));
                           played := played (sound s) |};
               commands := commands s ++ [cmd] |} in
  match fst (subprocess_run sh cmd) with
  | Ok _ => (Ret tt, s')
  | Err e => (Raise e, s')
  end.

(** [speak(text)].  [dev] answers [sd.play] inside [play_wav]. *)
Definition speak (sh : shell) (dev : result unit) (text : string)
    (s : tts_state) : outcome string * tts_state :=
  let synth :=
    if which_tts sh then
      _run_cmd sh ["tts"; "--text"; text; "--out_path"; out]%string s
    else if which_piper sh then
      _run_cmd sh ["piper"; "--text"; text; "--output_file"; out]%string s
    else (Raise (RuntimeError "No TTS engine available"), s) in
  match synth with
  | (Ret _, s1) =>
      match play_wav dev out (sound s1) with
      | (Ret _, a) => (Ret out, {| sound := a; commands := commands s1 |})
      | (Raise e, a) => (Raise e, {| sound := a; commands := commands s1 |})
      | (Blocked, a) => (Blocked, {| sound := a; commands := commands s1 |})
      end
  | (Raise e, s1) => (Raise e, s1)
  | (Blocked, s1) => (Blocked, s1)
  end.

End Tts.

(** ** main.py *)

Module Main.

(** The parsed command line. *)
Record args := {
  no_wake : bool;
  stt_model : string;
  quiet : bool
}.

(** [if args.no_wake: config.USE_PUSH_TO_TALK = True]. *)
Definition configure (a : args) (e : env) : env :=
  if no_wake a then
    {| cfg := {| SCRYPTED_URL := SCRYPTED_URL (cfg e);
                 SCRYPTED_TOKEN := SCRYPTED_TOKEN (cfg e);
                 WAKEWORD := WAKEWORD (cfg e);
                 VOICE := VOICE (cfg e);
                 DEVICE_IDS := DEVICE_IDS (cfg e);
                 USE_PUSH_TO_TALK := true;
                 PTT_KEY := PTT_KEY (cfg e) |};
       openwakeword := openwakeword e |}
  else e.

(** [main()]: the flag is applied, then [brain.run()] takes over.  The
    status server runs in a thread of its own and only reads the
    state. *)
Definition main (a : args) (e : env) (turns : list Brain.turn)
    (st : state) : Brain.loop_status * state :=
  Brain.run (configure a e) turns st.

End Main.

(** ** aquarium_optimizer_one_click_fixed.py *)

Module Aquarium.

(** What the script reads from the Blender object: its bounding-box
    dimensions, its location, and the world-space height of each
    vertex, [(obj.matrix_world @ v.co).z]. *)
Record object := {
  dim_x : Q;
  dim_y : Q;
  dim_z : Q;
  loc_x : Q;
  loc_y : Q;
  vertex_z : list Q
}.

Definition ZeroDivisionError : exn :=
  Exception "ZeroDivisionError" "float division by zero".

(** [simulate_sink_or_float(obj, material_density)]. *)
Definition simulate_sink_or_float (obj : object) (material_density : Q)
  : result bool :=
  let vol_cm3 := ((dim_x obj * 100) * (dim_y obj * 100) * (dim_z obj * 100))%Q in
  let est_mass_g := (vol_cm3 * material_density)%Q in
  if Qeq_bool vol_cm3 0 then Err ZeroDivisionError
  else
    let avg_density := (est_mass_g / vol_cm3)%Q in
    Ok (Qgtb avg_density 1).

Definition default_density : Q := 127 # 100.

End Aquarium.

(** ** Sample environments *)

Module Samples.
Import Wake.

Definition base_config (ptt : bool) : config :=
  {| SCRYPTED_URL := Some "http://host"%string;
     SCRYPTED_TOKEN := Some "token"%string;
     WAKEWORD := "hey_nova";
     VOICE := "en_US";
     DEVICE_IDS := ∅;
     USE_PUSH_TO_TALK := ptt;
     PTT_KEY := "F9" |}.

(** Push-to-talk mode. *)
Definition ptt_env : env := {| cfg := base_config true; openwakeword := true |}.

(** Wake-word mode with the detector installed. *)
Definition wake_env : env := {| cfg := base_config false; openwakeword := true |}.

(** Wake-word mode without [openwakeword]. *)
Definition deaf_env : env := {| cfg := base_config false; openwakeword := false |}.

(** The key goes down at time [t]. *)
Definition press (t : Q) : episode :=
  {| ep_wait := Some (Ok t); ep_model := Ok tt; ep_mic := Ok tt;
     ep_start := Ok tt; ep_iters := [] |}.

(** A chunk scored [score] for the wake word, read at time [now]. *)
Definition chunk (score now : Q) (pressed : bool) : iteration :=
  {| it_predict := Ok {[ "hey_nova"%string := score ]};
     it_now := now;
     it_pressed := pressed |}.

(** A chunk on which [model.predict] raises. *)
Definition bad_chunk (now : Q) : iteration :=
  {| it_predict := Err (RuntimeError "predict failed");
     it_now := now;
     it_pressed := false |}.

Definition hearing (its : list iteration) : episode :=
  {| ep_wait := None; ep_model := Ok tt; ep_mic := Ok tt;
     ep_start := Ok tt; ep_iters := its |}.

(** The device opens and then fails to start. *)
Definition PortAudioError : exn :=
  Exception "sounddevice.PortAudioError" "Error starting stream".

Definition stalled (its : list iteration) : episode :=
  {| ep_wait := None; ep_model := Ok tt; ep_mic := Ok tt;
     ep_start := Err PortAudioError; ep_iters := its |}.

(** [keyboard.wait] does not know the key. *)
Definition unknown_key : exn :=
  Exception "ValueError" "Key name is not mapped to any known key.".

Definition no_keyboard : episode :=
  {| ep_wait := Some (Err unknown_key); ep_model := Ok tt; ep_mic := Ok tt;
     ep_start := Ok tt; ep_iters := [] |}.

(** A turn in push-to-talk mode: the key goes down at [t], and the
    steps that follow are answered as given. *)
Definition turn_at (t : Q) (record transcribe command : result string)
    (speak sorry : result unit) : Brain.turn :=
  {| Brain.t_episode := press t;
     Brain.t_record := record;
     Brain.t_transcribe := transcribe;
     Brain.t_command := command;
     Brain.t_speak := speak;
     Brain.t_apology := sorry |}.

(** A turn in wake-word mode that would hear the wake word at [t]. *)
Definition heard_at (t : Q) (sorry : result unit) : Brain.turn :=
  {| Brain.t_episode := hearing [chunk 1 t false];
     Brain.t_record := Ok "/tmp/a.wav"%string;
     Brain.t_transcribe := Ok "hello"%string;
     Brain.t_command := Ok "hi there"%string;
     Brain.t_speak := Ok tt;
     Brain.t_apology := sorry |}.

Definition no_tts : exn := RuntimeError "No TTS engine available".

Definition KeyboardInterrupt : exn := BaseException "KeyboardInterrupt" "".

(** A state left by an earlier successful turn. *)
Definition after_a_turn : state :=
  {| LAST_TRIGGER := 5;
     last_transcript := Some "what time is it"%string;
     last_response := Some "noon"%string;
     trace := [] |}.

(** A microphone that records silence into the file [path]. *)
Definition silence (path : string) : AudioIO.recording :=
  {| AudioIO.rec_signal := Ok (fun _ => S754_zero false);
     AudioIO.rec_cast := fun _ => 0;
     AudioIO.rec_tmp := Ok path |}.

(** The floats 0.1, 0.7 and 0.001, and 3/32768, which is a float. *)
Definition tenth : spec_float := S754_finite false 7205759403792794 (-56).
Definition seven_tenths : spec_float :=
  S754_finite false 6305039478318694 (-53).

Definition no_audio : AudioIO.audio :=
  {| AudioIO.files := ∅; AudioIO.played := [] |}.

(** A network on which every request is answered 200 with the JSON
    body [j]. *)
Definition answering (j : Json.value) : Net.network := fun _ =>
  Ok {| Net.status_code := 200; Net.content := []; Net.body := Ok j |}.

(** A network that is down. *)
Definition offline : Net.network := fun _ =>
  Err (Exception "ConnectionError" "connection refused").

(** The model's reply as the backend wraps it. *)
Definition reply (text : string) : Json.value :=
  Json.Obj {[ "response"%string := Json.Str text ]}.

(** [n] times the character [c], and the texts that consist of [c]
    only. *)
Fixpoint repeated (c : Ascii.ascii) (n : nat) : string :=
  match n with
  | O => EmptyString
  | S k => String c (repeated c k)
  end.

Fixpoint only (c : Ascii.ascii) (s : string) : bool :=
  match s with
  | EmptyString => true
  | String c' rest => Ascii.eqb c' c && only c rest
  end.

(** The digit 1 and the opening bracket. *)
Definition one : Ascii.ascii := Ascii.ascii_of_nat 49.
Definition bracket : Ascii.ascii := Ascii.ascii_of_nat 91.

Definition too_many_digits : exn :=
  ValueError "Exceeds the limit (4300 digits) for integer string conversion".

Definition too_deep : exn :=
  Exception "RecursionError"
    "maximum recursion depth exceeded while decoding a JSON array".

(** A stand-in for [json.loads] that knows five kinds of text: a tool
    call, an object without a tool, a number, an integer literal of
    more than 4300 digits, which [json.loads] hands to [int] and [int]
    refuses with [ValueError], and a run of more than 10000 opening
    brackets, on which the decoder exhausts the interpreter's stack;
    any other text is not JSON. *)
Definition loads (s : string) : result Json.value :=
  if String.eqb s "<arm call>"
  then Ok (Json.Obj {[ "tool"%string := Json.Str "scrypted.arm" ]})
  else if String.eqb s "<object>"
  then Ok (Json.Obj {[ "answer"%string := Json.Int 42 ]})
  else if String.eqb s "42"
  then Ok (Json.Int 42)
  else if only one s && (4300 <? Z.of_nat (String.length s))
  then Err too_many_digits
  else if only bracket s && (10000 <? Z.of_nat (String.length s))
  then Err too_deep
  else Err (Json.JSONDecodeError "Expecting value").

End Samples.

(** * Properties *)

(** ** Helper facts *)

Lemma Qgtb_true (x y : Q) : Qgtb x y = true <-> (y < x)%Q.
Proof.
  unfold Qgtb. rewrite negb_true_iff, <- not_true_iff_false, Qle_bool_iff.
  split; [apply Qnot_le_lt | apply Qlt_not_le].
Qed.

Lemma Qgtb_false (x y : Q) : Qgtb x y = false <-> (x <= y)%Q.
Proof.
  unfold Qgtb. rewrite negb_false_iff. apply Qle_bool_iff.
Qed.

(** ** The repository's tests, replayed on the model *)

(** [tests/test_audio_loop.py]: [record_seconds(0.1, samplerate=8000)]
    asks [sd.rec] for 800 frames, and the file plays back. *)
Example test_record_play :
  AudioIO.rec_frames Samples.tenth 8000 = Ok 800
  /\ fst (AudioIO.record_seconds (Samples.silence "/tmp/t.wav")
            Samples.tenth 8000 1 Samples.no_audio) = Ret "/tmp/t.wav"%string
  /\ fst (AudioIO.play_wav (Ok tt) "/tmp/t.wav"
            (snd (AudioIO.record_seconds (Samples.silence "/tmp/t.wav")
                    Samples.tenth 8000 1 Samples.no_audio))) = Ret tt.
Proof.
  split; [reflexivity|]. split; vm_compute; reflexivity.
Qed.

(** The product is the machine's: the float 0.7 is a little below
    7/10, and so is its exact product with 16000 below 11200; rounded
    to a float the product is 11200.0, and 11200 frames are recorded.
    The default call, [record_seconds()], records 64000 frames. *)
Example test_float_product :
  (float_value Samples.seven_tenths * 16000 < 11200)%Q
  /\ float_mul Samples.seven_tenths
       (S754_finite false 8796093022208000 (-39))
     = S754_finite false 6157265115545600 (-39)
  /\ AudioIO.rec_frames Samples.seven_tenths 16000 = Ok 11200
  /\ AudioIO.rec_frames AudioIO.default_seconds AudioIO.default_samplerate
     = Ok 64000.
Proof.
  repeat split.
Qed.

(** [tests/test_llm_vlm.py]: a backend that answers ["hello"] makes
    [chat("hi")] return ["hello"], after one request whose body names
    the model ["llama3.1"]. *)
Example test_llm_request :
  Llm.chat Samples.loads (Samples.base_config false)
    (Samples.answering (Samples.reply "hello")) "hi" None []
  = (Ok (Json.Str "hello"),
     [Net.Http (Net.OllamaGenerate (Llm.payload "hi" None))])
  /\ Llm.payload "hi" None !! "model"%string = Some (Json.Str "llama3.1").
Proof.
  split; reflexivity.
Qed.

(** [tests/test_scrypted_api.py]: with a token configured, [snapshot]
    and [arm] each send one request, authorised as the bearer of the
    token. *)
Example test_headers_and_urls :
  Scrypted._headers (Samples.base_config false) = Ok "Bearer token"%string
  /\ snd (Scrypted.snapshot (Samples.base_config false)
            (Samples.answering (Json.Obj ∅)) (Json.Str "dev") [])
     = [Net.Http (Net.ScryptedSnapshot (Json.Str "dev"))]
  /\ Scrypted.arm (Samples.base_config false)
       (Samples.answering (Json.Obj ∅)) (Json.Str "dev") []
     = (Ok true, [Net.Http (Net.ScryptedArm (Json.Str "dev"))]).
Proof.
  repeat split.
Qed.

(** ** The trigger detector *)

Module WakeFacts.
Import Wake.

(** Trigger time stamps, each more than one second after [last] and
    after its predecessor. *)
Fixpoint paced (last : Q) (ts : list Q) : Prop :=
  match ts with
  | [] => True
  | t :: rest => (last + 1 < t)%Q /\ paced t rest
  end.

(** No two of the time stamps are less than [w] apart. *)
Definition spaced (w : Q) (ts : list Q) : Prop :=
  forall (i j : nat) (ti tj : Q),
    (i < j)%nat -> ts !! i = Some ti -> ts !! j = Some tj ->
    ~ (Qabs (tj - ti) < w)%Q.

(** An iteration that neither raises nor fires, given the time stamp
    of the last trigger. *)
Definition passes (th : Q) (c : config) (last : Q) (it : iteration)
  : bool :=
  match it_predict it with
  | Err _ => false
  | Ok scores =>
      negb (Qgtb (default 0%Q (scores !! WAKEWORD c)) th
            && Qgtb (it_now it - last) 1)
      && negb (it_pressed it && Qgtb (it_now it - last) 1)
  end.

Definition is_stream (ev : event) : bool :=
  match ev with
  | StreamOpen | StreamStart | StreamStop | StreamClose => true
  | _ => false
  end.

Definition stream_free (l : list event) : Prop :=
  Forall (fun ev => is_stream ev = false) l.

Definition polls (n : nat) : list event :=
  concat (replicate n [QueueGet; IsPressed]).

End WakeFacts.
Import Wake WakeFacts.

Lemma paced_weaken (ts : list Q) (l l' : Q) :
  (l' <= l)%Q -> paced l ts -> paced l' ts.
Proof.
  destruct ts as [|t rest]; simpl; [easy|].
  intros Hle [Hlt Hrest]. split; [lra | exact Hrest].
Qed.

Lemma paced_lookup (ts : list Q) (last : Q) (j : nat) (tj : Q) :
  paced last ts -> ts !! j = Some tj -> (last + 1 < tj)%Q.
Proof.
  revert last j. induction ts as [|t rest IH]; intros last j Hp Hj.
  - discriminate.
  - destruct Hp as [Hlt Hrest]. destruct j as [|j]; simpl in Hj.
    + injection Hj as <-. exact Hlt.
    + apply (IH t j) in Hj; [lra | exact Hrest].
Qed.

Lemma paced_gap (ts : list Q) (last : Q) (i j : nat) (ti tj : Q) :
  paced last ts -> (i < j)%nat -> ts !! i = Some ti -> ts !! j = Some tj ->
  (1 < tj - ti)%Q.
Proof.
  revert last i j. induction ts as [|t rest IH]; intros last i j Hp Hij Hi Hj.
  - discriminate.
  - destruct Hp as [Hlt Hrest]. destruct j as [|j]; [lia|].
    simpl in Hj. destruct i as [|i]; simpl in Hi.
    + injection Hi as <-. pose proof (paced_lookup _ _ _ _ Hrest Hj). lra.
    + apply (IH t i j); [exact Hrest | lia | exact Hi | exact Hj].
Qed.

Lemma paced_spaced (ts : list Q) (last : Q) : paced last ts -> spaced 1 ts.
Proof.
  intros Hp i j ti tj Hij Hi Hj Habs.
  pose proof (paced_gap _ _ _ _ _ _ Hp Hij Hi Hj) as Hgap.
  pose proof (Qle_Qabs (tj - ti)). lra.
Qed.

(** The loop leaves [_LAST_TRIGGER] alone unless it returns, and then
    the new stamp is more than a second past the old one. *)
Lemma wake_loop_stamp th c its st o st' :
  wake_loop th c its st = (o, st') ->
  match o with
  | Ret _ => (LAST_TRIGGER st + 1 < LAST_TRIGGER st')%Q
  | _ => LAST_TRIGGER st' = LAST_TRIGGER st
  end.
Proof.
  revert st. induction its as [|it rest IH]; intros st H; simpl in H.
  - injection H as <- <-. reflexivity.
  - destruct (it_predict it) as [scores|x].
    + destruct (Qgtb _ th && _) eqn:Hw.
      * injection H as <- <-. simpl.
        apply andb_true_iff in Hw as [_ Hd]. apply Qgtb_true in Hd.
        simpl in Hd. lra.
      * destruct (it_pressed it && _) eqn:Hk.
        -- injection H as <- <-. simpl.
           apply andb_true_iff in Hk as [_ Hd]. apply Qgtb_true in Hd.
           simpl in Hd. lra.
        -- apply IH in H. exact H.
    + injection H as <- <-. reflexivity.
Qed.

Lemma listen_for_wake_stamp th e ep st o st' :
  USE_PUSH_TO_TALK (cfg e) = false ->
  listen_for_wake th e ep st = (o, st') ->
  match o with
  | Ret _ => (LAST_TRIGGER st + 1 < LAST_TRIGGER st')%Q
  | _ => LAST_TRIGGER st' = LAST_TRIGGER st
  end.
Proof.
  intros Hmode H. unfold listen_for_wake in H. rewrite Hmode in H.
  destruct (negb (openwakeword e)).
  { injection H as <- <-. reflexivity. }
  destruct (ep_model ep) as [[]|x].
  2: { injection H as <- <-. reflexivity. }
  unfold AudioIO.microphone_stream in H.
  destruct (ep_mic ep) as [[]|x].
  2: { injection H as <- <-. reflexivity. }
  destruct (ep_start ep) as [[]|x].
  2: { injection H as <- <-. reflexivity. }
  destruct (wake_loop th (cfg e) (ep_iters ep) _) as [o1 st1] eqn:Hloop.
  apply wake_loop_stamp in Hloop.
  destruct o1; simpl in H; injection H as <- <-; exact Hloop.
Qed.

Lemma triggers_paced th e eps st :
  USE_PUSH_TO_TALK (cfg e) = false ->
  paced (LAST_TRIGGER st) (map snd (triggers th e eps st)).
Proof.
  intros Hmode. revert st. induction eps as [|ep rest IH]; intros st.
  - exact I.
  - simpl. destruct (listen_for_wake th e ep st) as [o st'] eqn:Hl.
    pose proof (listen_for_wake_stamp _ _ _ _ _ _ Hmode Hl) as Hs.
    destruct o as [kind|x|].
    + simpl. split; [exact Hs | apply IH].
    + rewrite <- Hs. apply IH.
    + exact I.
Qed.

(** C1, as amended.  In wake-word mode, with the fixed window of one
    second, any two triggers that successive calls of [listen_for_wake]
    return -- wake word or key press alike, since both branches test
    and set the one [_LAST_TRIGGER] -- are more than one second apart,
    and the first is more than one second after the stamp the state
    held before. *)
Theorem debounce_wake_word_mode (th : Q) (e : env) (eps : list episode)
    (st : state) :
  USE_PUSH_TO_TALK (cfg e) = false ->
  let ts := map snd (triggers th e eps st) in
  paced (LAST_TRIGGER st) ts
  /\ spaced 1 ts
  /\ (forall (i j : nat) (ti tj : Q),
        (i < j)%nat -> ts !! i = Some ti -> ts !! j = Some tj ->
        (1 < tj - ti)%Q).
Proof.
  intros Hmode ts.
  pose proof (triggers_paced th e eps st Hmode) as Hp. fold ts in Hp.
  split; [exact Hp|]. split.
  - exact (paced_spaced _ _ Hp).
  - intros i j ti tj. exact (paced_gap _ _ _ _ _ _ Hp).
Qed.

Lemma debounce_wake_word_mode_witness :
  let ts := map snd (triggers default_threshold Samples.wake_env
                       [Samples.hearing [Samples.chunk 1 10 false];
                        Samples.hearing [Samples.chunk 0 (21 # 2) true;
                                         Samples.chunk 0 12 true]]
                       initial_state) in
  paced 0 ts
  /\ spaced 1 ts
  /\ (forall (i j : nat) (ti tj : Q),
        (i < j)%nat -> ts !! i = Some ti -> ts !! j = Some tj ->
        (1 < tj - ti)%Q).
Proof.
  apply (debounce_wake_word_mode default_threshold Samples.wake_env
           [Samples.hearing [Samples.chunk 1 10 false];
            Samples.hearing [Samples.chunk 0 (21 # 2) true;
                             Samples.chunk 0 12 true]]
           initial_state).
  reflexivity.
Defined.

(** C1 as stated fails twice.  In push-to-talk mode [listen_for_wake]
    sets [_LAST_TRIGGER] and never tests it: key presses at 10.0 s and
    10.2 s both return a trigger.  And the window is the literal 1.0:
    for a window of 5 s, wake words at 10 s and 12 s both fire. *)
Lemma debounce_any_window_counterexample :
  ~ spaced 1 (map snd (triggers default_threshold Samples.ptt_env
                         [Samples.press 10; Samples.press (51 # 5)]
                         initial_state))
  /\ ~ spaced 5 (map snd (triggers default_threshold Samples.wake_env
                            [Samples.hearing [Samples.chunk 1 10 false];
                             Samples.hearing [Samples.chunk 1 12 false]]
                            initial_state)).
Proof.
  split.
  - intros H. apply (H 0%nat 1%nat 10%Q (51 # 5)); [lia | reflexivity ..].
  - intros H. apply (H 0%nat 1%nat 10%Q 12%Q); [lia | reflexivity ..].
Qed.

(** *** Reaching a chunk, and firing on it *)

Lemma log_log_trace (a b : event) (l : list event) (st : state) :
  trace st = l -> trace (log b (log a st)) = l ++ [a; b].
Proof.
  intros <-. simpl. rewrite <- app_assoc. reflexivity.
Qed.

(** Iterations that pass leave the loop where it was, two trace
    entries later each. *)
Lemma wake_loop_passes th c pre rest st :
  Forall (fun p => passes th c (LAST_TRIGGER st) p = true) pre ->
  exists st1,
    wake_loop th c (pre ++ rest) st = wake_loop th c rest st1
    /\ LAST_TRIGGER st1 = LAST_TRIGGER st
    /\ trace st1 = trace st ++ polls (length pre).
Proof.
  revert st. induction pre as [|p pre IH]; intros st Hall.
  - exists st. unfold polls. simpl. rewrite app_nil_r. auto.
  - apply Forall_cons in Hall as [Hp Hall].
    unfold passes in Hp. simpl.
    destruct (it_predict p) as [scores|x]; [|discriminate].
    apply andb_true_iff in Hp as [Hw Hk].
    apply negb_true_iff in Hw, Hk.
    change (LAST_TRIGGER (log QueueGet st)) with (LAST_TRIGGER st).
    rewrite Hw.
    change (LAST_TRIGGER (log IsPressed (log QueueGet st)))
      with (LAST_TRIGGER st).
    rewrite Hk.
    destruct (IH (log IsPressed (log QueueGet st)) Hall)
      as (st1 & Heq & Hlast & Htr).
    exists st1. split; [exact Heq|]. split; [exact Hlast|].
    rewrite Htr. unfold polls. simpl. rewrite <- !app_assoc. reflexivity.
Qed.

Lemma wake_loop_fires th c it post scores st :
  it_predict it = Ok scores ->
  (th < default 0%Q (scores !! WAKEWORD c))%Q ->
  (1 < it_now it - LAST_TRIGGER st)%Q ->
  wake_loop th c (it :: post) st
  = (Ret "wakeword"%string, set_LAST_TRIGGER (it_now it) (log QueueGet st)).
Proof.
  intros Hp Hs Hd. simpl. rewrite Hp.
  apply Qgtb_true in Hs. rewrite Hs.
  change (LAST_TRIGGER (log QueueGet st)) with (LAST_TRIGGER st).
  apply Qgtb_true in Hd. rewrite Hd. reflexivity.
Qed.

(** A call of [listen_for_wake] in wake-word mode whose loop reaches a
    chunk that scores above the threshold more than a second after the
    last trigger. *)
Lemma listen_for_wake_fires th e ep st pre it post scores :
  USE_PUSH_TO_TALK (cfg e) = false ->
  openwakeword e = true ->
  ep_model ep = Ok tt ->
  ep_mic ep = Ok tt ->
  ep_start ep = Ok tt ->
  ep_iters ep = pre ++ it :: post ->
  Forall (fun p => passes th (cfg e) (LAST_TRIGGER st) p = true) pre ->
  it_predict it = Ok scores ->
  (th < default 0%Q (scores !! WAKEWORD (cfg e)))%Q ->
  (1 < it_now it - LAST_TRIGGER st)%Q ->
  exists st',
    listen_for_wake th e ep st = (Ret "wakeword"%string, st')
    /\ LAST_TRIGGER st' = it_now it
    /\ trace st' = trace st ++ [StreamOpen; StreamStart]
                     ++ polls (length pre)
                     ++ [QueueGet; StreamStop; StreamClose].
Proof.
  intros Hmode Hav Hmodel Hmic Hstart Hits Hall Hp Hs Hd.
  unfold listen_for_wake. rewrite Hmode, Hav, Hmodel, Hmic, Hstart, Hits.
  simpl.
  destruct (wake_loop_passes th (cfg e) pre (it :: post)
              (log StreamStart (log StreamOpen st)) Hall)
    as (st1 & Heq & Hlast & Htr).
  rewrite Heq.
  rewrite (wake_loop_fires th (cfg e) it post scores st1 Hp Hs).
  2: { rewrite Hlast. exact Hd. }
  eexists. split; [reflexivity|]. split; [reflexivity|].
  simpl. rewrite Htr. simpl. rewrite <- !app_assoc. reflexivity.
Qed.

(** C5, as amended.  In wake-word mode, once the microphone stream has
    been opened and started, when the detection loop reaches
    a chunk whose score is strictly above the threshold while more than
    one second has passed since the last trigger, [listen_for_wake]
    returns ["wakeword"] on that chunk: the chunk is the last one taken
    from the queue, the stamp becomes the time of that chunk, and the
    call yields that one trigger event and no other. *)
Theorem wakeword_once_per_qualifying_chunk (th : Q) (e : env) (ep : episode)
    (st : state) (pre : list iteration) (it : iteration)
    (post : list iteration) (scores : gmap string Q) :
  USE_PUSH_TO_TALK (cfg e) = false ->
  openwakeword e = true ->
  ep_model ep = Ok tt ->
  ep_mic ep = Ok tt ->
  ep_start ep = Ok tt ->
  ep_iters ep = pre ++ it :: post ->
  Forall (fun p => passes th (cfg e) (LAST_TRIGGER st) p = true) pre ->
  it_predict it = Ok scores ->
  (th < default 0%Q (scores !! WAKEWORD (cfg e)))%Q ->
  (1 < it_now it - LAST_TRIGGER st)%Q ->
  exists st',
    listen_for_wake th e ep st = (Ret "wakeword"%string, st')
    /\ LAST_TRIGGER st' = it_now it
    /\ trace st' = trace st ++ [StreamOpen; StreamStart]
                     ++ polls (length pre)
                     ++ [QueueGet; StreamStop; StreamClose]
    /\ triggers th e [ep] st = [("wakeword"%string, it_now it)].
Proof.
  intros Hmode Hav Hmodel Hmic Hstart Hits Hall Hp Hs Hd.
  destruct (listen_for_wake_fires th e ep st pre it post scores
              Hmode Hav Hmodel Hmic Hstart Hits Hall Hp Hs Hd)
    as (st' & Hl & Hlast & Htr).
  exists st'. repeat split; try assumption.
  simpl. rewrite Hl, Hlast. reflexivity.
Qed.

Lemma wakeword_once_per_qualifying_chunk_witness :
  exists st',
    listen_for_wake default_threshold Samples.wake_env
      (Samples.hearing [Samples.chunk (1 # 2) 10 false;
                        Samples.chunk (4 # 5) 11 false;
                        Samples.chunk 1 12 false])
      initial_state
    = (Ret "wakeword"%string, st')
    /\ LAST_TRIGGER st' = 11%Q
    /\ trace st' = [] ++ [StreamOpen; StreamStart] ++ polls 1
                     ++ [QueueGet; StreamStop; StreamClose]
    /\ triggers default_threshold Samples.wake_env
         [Samples.hearing [Samples.chunk (1 # 2) 10 false;
                           Samples.chunk (4 # 5) 11 false;
                           Samples.chunk 1 12 false]]
         initial_state
       = [("wakeword"%string, 11%Q)].
Proof.
  apply (wakeword_once_per_qualifying_chunk default_threshold
           Samples.wake_env
           (Samples.hearing [Samples.chunk (1 # 2) 10 false;
                             Samples.chunk (4 # 5) 11 false;
                             Samples.chunk 1 12 false])
           initial_state
           [Samples.chunk (1 # 2) 10 false]
           (Samples.chunk (4 # 5) 11 false)
           [Samples.chunk 1 12 false]
           {[ "hey_nova"%string := 4 # 5 ]}).
  - reflexivity.
  - reflexivity.
  - reflexivity.
  - reflexivity.
  - reflexivity.
  - reflexivity.
  - repeat constructor.
  - reflexivity.
  - reflexivity.
  - reflexivity.
Defined.

(** C5 as stated fails at a score equal to the threshold: the test is
    [score > threshold].  The chunk scores 0.75 at time 10 with the
    last trigger at 0; the call does not return and no event is
    produced. *)
Lemma wakeword_at_threshold_counterexample :
  (default_threshold <= 3 # 4)%Q
  /\ (1 < 10 - LAST_TRIGGER initial_state)%Q
  /\ fst (listen_for_wake default_threshold Samples.wake_env
            (Samples.hearing [Samples.chunk (3 # 4) 10 false])
            initial_state) = Blocked
  /\ triggers default_threshold Samples.wake_env
       [Samples.hearing [Samples.chunk (3 # 4) 10 false]]
       initial_state = [].
Proof.
  split; [discriminate|]. split; [reflexivity|]. split; reflexivity.
Qed.

(** C6.  When the loop, with the microphone stream opened and started,
    reaches an iteration in which the score is above
    the threshold, the key is down and more than a second has passed
    since the last trigger, [listen_for_wake] returns ["wakeword"] and
    not ["push_to_talk"]: the wake-word test comes first, and the key
    is not even polled in that iteration. *)
Theorem wakeword_wins_tie (th : Q) (e : env) (ep : episode)
    (st : state) (pre : list iteration) (it : iteration)
    (post : list iteration) (scores : gmap string Q) :
  USE_PUSH_TO_TALK (cfg e) = false ->
  openwakeword e = true ->
  ep_model ep = Ok tt ->
  ep_mic ep = Ok tt ->
  ep_start ep = Ok tt ->
  ep_iters ep = pre ++ it :: post ->
  Forall (fun p => passes th (cfg e) (LAST_TRIGGER st) p = true) pre ->
  it_predict it = Ok scores ->
  (th < default 0%Q (scores !! WAKEWORD (cfg e)))%Q ->
  it_pressed it = true ->
  (1 < it_now it - LAST_TRIGGER st)%Q ->
  fst (listen_for_wake th e ep st) = Ret "wakeword"%string
  /\ fst (listen_for_wake th e ep st) <> Ret "push_to_talk"%string
  /\ trace (snd (listen_for_wake th e ep st))
     = trace st ++ [StreamOpen; StreamStart]
         ++ polls (length pre)
         ++ [QueueGet; StreamStop; StreamClose].
Proof.
  intros Hmode Hav Hmodel Hmic Hstart Hits Hall Hp Hs _ Hd.
  destruct (listen_for_wake_fires th e ep st pre it post scores
              Hmode Hav Hmodel Hmic Hstart Hits Hall Hp Hs Hd)
    as (st' & Hl & _ & Htr).
  rewrite Hl. simpl. split; [reflexivity|]. split; [discriminate | exact Htr].
Qed.

Lemma wakeword_wins_tie_witness :
  fst (listen_for_wake default_threshold Samples.wake_env
         (Samples.hearing [Samples.chunk (9 # 10) 10 true]) initial_state)
  = Ret "wakeword"%string
  /\ fst (listen_for_wake default_threshold Samples.wake_env
            (Samples.hearing [Samples.chunk (9 # 10) 10 true]) initial_state)
     <> Ret "push_to_talk"%string
  /\ trace (snd (listen_for_wake default_threshold Samples.wake_env
                   (Samples.hearing [Samples.chunk (9 # 10) 10 true])
                   initial_state))
     = [] ++ [StreamOpen; StreamStart] ++ polls 0
         ++ [QueueGet; StreamStop; StreamClose].
Proof.
  apply (wakeword_wins_tie default_threshold Samples.wake_env
           (Samples.hearing [Samples.chunk (9 # 10) 10 true])
           initial_state [] (Samples.chunk (9 # 10) 10 true) []
           {[ "hey_nova"%string := 9 # 10 ]}).
  - reflexivity.
  - reflexivity.
  - reflexivity.
  - reflexivity.
  - reflexivity.
  - reflexivity.
  - constructor.
  - reflexivity.
  - reflexivity.
  - reflexivity.
  - reflexivity.
Defined.

(** *** The microphone stream *)

(** The loop itself touches no stream. *)
Lemma wake_loop_trace th c its st o st' :
  wake_loop th c its st = (o, st') ->
  exists mid, trace st' = trace st ++ mid /\ stream_free mid.
Proof.
  revert st. induction its as [|it rest IH]; intros st H; simpl in H.
  - injection H as <- <-. exists []. rewrite app_nil_r. split; [reflexivity|].
    constructor.
  - destruct (it_predict it) as [scores|x].
    + destruct (Qgtb _ th && _).
      * injection H as <- <-. exists [QueueGet]. split; [reflexivity|].
        repeat constructor.
      * destruct (it_pressed it && _).
        -- injection H as <- <-. exists [QueueGet; IsPressed]. split.
           ++ simpl. rewrite <- app_assoc. reflexivity.
           ++ repeat constructor.
        -- apply IH in H as (mid & Htr & Hfree).
           exists (QueueGet :: IsPressed :: mid). split.
           ++ rewrite Htr. simpl. rewrite <- !app_assoc. reflexivity.
           ++ repeat constructor. exact Hfree.
    + injection H as <- <-. exists [QueueGet]. split; [reflexivity|].
      repeat constructor.
Qed.

(** C7.  The claim fails on one exit path.  In wake-word mode, when
    [sd.InputStream(...)] has opened the stream and [stream.start()]
    raises, the exception leaves [microphone_stream] before
    [listen_for_wake] has entered its [try] block: [listen_for_wake]
    raises that exception, what it adds to the trace is the opening and
    the failed start of the stream and nothing else, and the stream
    that was opened is neither stopped nor closed. *)
Theorem stream_left_open_when_start_fails (th : Q) (e : env) (ep : episode)
    (st : state) (x : exn) :
  USE_PUSH_TO_TALK (cfg e) = false ->
  openwakeword e = true ->
  ep_model ep = Ok tt ->
  ep_mic ep = Ok tt ->
  ep_start ep = Err x ->
  let r := listen_for_wake th e ep st in
  let new := drop (length (trace st)) (trace (snd r)) in
  fst r = Raise x
  /\ trace (snd r) = trace st ++ [StreamOpen; StreamStart]
  /\ new = [StreamOpen; StreamStart]
  /\ (StreamStop ∉ new)
  /\ (StreamClose ∉ new).
Proof.
  intros Hmode Hav Hmodel Hmic Hstart r new. subst new r.
  unfold listen_for_wake, AudioIO.microphone_stream.
  rewrite Hmode, Hav, Hmodel, Hmic, Hstart. simpl.
  rewrite <- app_assoc. simpl. rewrite drop_app_length.
  split; [reflexivity|]. split; [reflexivity|]. split; [reflexivity|].
  split; intros H; repeat (apply elem_of_cons in H as [H|H]; [discriminate|]);
    inversion H.
Qed.

Lemma stream_left_open_when_start_fails_witness :
  let r := listen_for_wake default_threshold Samples.wake_env
             (Samples.stalled [Samples.chunk 1 10 false]) initial_state in
  let new := drop (length (trace initial_state)) (trace (snd r)) in
  fst r = Raise Samples.PortAudioError
  /\ trace (snd r) = trace initial_state ++ [StreamOpen; StreamStart]
  /\ new = [StreamOpen; StreamStart]
  /\ (StreamStop ∉ new)
  /\ (StreamClose ∉ new).
Proof.
  apply (stream_left_open_when_start_fails default_threshold
           Samples.wake_env (Samples.stalled [Samples.chunk 1 10 false])
           initial_state Samples.PortAudioError).
  - reflexivity.
  - reflexivity.
  - reflexivity.
  - reflexivity.
  - reflexivity.
Defined.

(** X26.  That path is the only one.  Whenever [listen_for_wake]
    returns or raises, what it added to the trace either touches no
    stream at all, or opens and starts one stream first and stops and
    closes it last, with no stream operation in between -- or it is the
    opening and the start of a stream, the start has raised, and the
    call raises what the start raised.  Without [openwakeword] in
    wake-word mode it raises with nothing added to the trace: no
    stream was opened. *)
Theorem stream_closed_unless_start_fails (th : Q) (e : env) (ep : episode)
    (st st' : state) (o : outcome string) :
  listen_for_wake th e ep st = (o, st') ->
  exited o = true ->
  exists new,
    trace st' = trace st ++ new
    /\ (stream_free new
        \/ (exists mid,
              new = [StreamOpen; StreamStart] ++ mid
                      ++ [StreamStop; StreamClose]
              /\ stream_free mid)
        \/ (new = [StreamOpen; StreamStart]
            /\ exists x, ep_start ep = Err x /\ o = Raise x))
    /\ (USE_PUSH_TO_TALK (cfg e) = false -> openwakeword e = false ->
        o = Raise (RuntimeError "openwakeword not available") /\ new = []).
Proof.
  intros H Hexit. unfold listen_for_wake in H.
  destruct (USE_PUSH_TO_TALK (cfg e)) eqn:Hmode.
  { destruct (ep_wait ep) as [[t|x]|]; injection H as <- <-; [| |discriminate].
    all: exists [KeyWait]; split; [reflexivity|]; split;
      [left; repeat constructor | discriminate]. }
  destruct (openwakeword e) eqn:Hav; simpl in H.
  2: { injection H as <- <-. exists []. rewrite app_nil_r.
       split; [reflexivity|]. split; [left; constructor | auto]. }
  destruct (ep_model ep) as [[]|x].
  2: { injection H as <- <-. exists []. rewrite app_nil_r.
       split; [reflexivity|]. split; [left; constructor | discriminate]. }
  unfold AudioIO.microphone_stream in H.
  destruct (ep_mic ep) as [[]|x].
  2: { injection H as <- <-. exists []. rewrite app_nil_r.
       split; [reflexivity|]. split; [left; constructor | discriminate]. }
  destruct (ep_start ep) as [[]|x] eqn:Hstart.
  2: { injection H as <- <-. exists [StreamOpen; StreamStart].
       split; [simpl; rewrite <- app_assoc; reflexivity|].
       split; [right; right; eauto | discriminate]. }
  destruct (wake_loop th (cfg e) (ep_iters ep) _) as [o1 st1] eqn:Hloop.
  apply wake_loop_trace in Hloop as (mid & Htr & Hfree).
  assert (Hnew : trace (log StreamClose (log StreamStop st1))
                 = trace st ++ [StreamOpen; StreamStart] ++ mid
                     ++ [StreamStop; StreamClose]).
  { simpl. rewrite Htr. simpl. rewrite <- !app_assoc. reflexivity. }
  destruct o1; simpl in H; injection H as <- <-; try discriminate.
  all: exists ([StreamOpen; StreamStart] ++ mid ++ [StreamStop; StreamClose]).
  all: split; [exact Hnew|]; split; [right; left; exists mid; auto
                                    | discriminate].
Qed.

Lemma stream_closed_unless_start_fails_witness :
  exists new,
    [StreamOpen; StreamStart; QueueGet; IsPressed; QueueGet;
     StreamStop; StreamClose] = [] ++ new
    /\ (stream_free new
        \/ (exists mid,
              new = [StreamOpen; StreamStart] ++ mid
                      ++ [StreamStop; StreamClose]
              /\ stream_free mid)
        \/ (new = [StreamOpen; StreamStart]
            /\ exists x,
                 ep_start (Samples.hearing [Samples.chunk (1 # 4) 10 false;
                                            Samples.bad_chunk 11]) = Err x
                 /\ @Raise string (RuntimeError "predict failed") = Raise x))
    /\ (USE_PUSH_TO_TALK (cfg Samples.wake_env) = false ->
        openwakeword Samples.wake_env = false ->
        @Raise string (RuntimeError "predict failed")
        = Raise (RuntimeError "openwakeword not available") /\ new = []).
Proof.
  apply (stream_closed_unless_start_fails default_threshold Samples.wake_env
           (Samples.hearing [Samples.chunk (1 # 4) 10 false;
                             Samples.bad_chunk 11])
           initial_state
           {| LAST_TRIGGER := 0;
              last_transcript := None;
              last_response := None;
              trace := [StreamOpen; StreamStart; QueueGet; IsPressed;
                        QueueGet; StreamStop; StreamClose] |}
           (Raise (RuntimeError "predict failed"))).
  - reflexivity.
  - reflexivity.
Defined.

(** ** The turn controller *)

Module BrainFacts.

(** The last-turn state, as the status surface reads it. *)
Definition last_turn (st : state) : option string * option string :=
  (last_transcript st, last_response st).

(** What a turn that raises [exc] leaves in the trace after the
    [except] clause of [run]. *)
Definition handled (exc : exn) (st : state) : state :=
  log (Speak Brain.apology) (log (LogException exc) st).

(** The apology does not raise past [except Exception]. *)
Definition apology_contained (t : Brain.turn) : bool :=
  match Brain.t_apology t with
  | Ok _ => true
  | Err e2 => catchable e2
  end.

(** The trace of one turn that fails for want of [openwakeword]. *)
Definition deaf_turn : list event :=
  [ListenForWake;
   LogException (RuntimeError "openwakeword not available");
   Speak Brain.apology].

End BrainFacts.
Import Brain BrainFacts.

(** [run_once], step by step. *)
Lemma run_once_steps e t st :
  run_once e t st =
  match listen_for_wake default_threshold e (t_episode t)
          (log ListenForWake st) with
  | (Ret _, s1) =>
      match t_record t with
      | Err x => (Raise x, log RecordSeconds s1)
      | Ok wav =>
          let s2 := log (LogInfo "recorded audio at %s" wav)
                      (log RecordSeconds s1) in
          match t_transcribe t with
          | Err x => (Raise x, log (Transcribe wav) s2)
          | Ok text =>
              let s3 := log (LogInfo "transcript: %s" text)
                          (set_last_transcript text
                             (log (Transcribe wav) s2)) in
              match t_command t with
              | Err x => (Raise x, log (HandleCommand text) s3)
              | Ok response =>
                  let s4 := log (LogInfo "response: %s" response)
                              (set_last_response response
                                 (log (HandleCommand text) s3)) in
                  match t_speak t with
                  | Err x => (Raise x, log (Speak response) s4)
                  | Ok u => (Ret u, log (Speak response) s4)
                  end
              end
          end
      end
  | (Raise x, s1) => (Raise x, s1)
  | (Blocked, s1) => (Blocked, s1)
  end.
Proof.
  unfold run_once, mbind, M_bind, tell, call, assign. simpl.
  destruct (listen_for_wake _ e (t_episode t) _) as [[k|x|] s1];
    try reflexivity.
  destruct (t_record t) as [wav|x]; [|reflexivity].
  destruct (t_transcribe t) as [text|x]; [|reflexivity].
  destruct (t_command t) as [response|x]; [|reflexivity].
  destruct (t_speak t) as [u|x]; reflexivity.
Qed.

(** [listen_for_wake] writes neither [last_transcript] nor
    [last_response]. *)
Lemma wake_loop_last_turn th c its st :
  last_turn (snd (wake_loop th c its st)) = last_turn st.
Proof.
  revert st. induction its as [|it rest IH]; intros st; simpl.
  - reflexivity.
  - destruct (it_predict it) as [scores|x]; [|reflexivity].
    destruct (Qgtb _ th && _); [reflexivity|].
    destruct (it_pressed it && _); [reflexivity|].
    rewrite IH. reflexivity.
Qed.

Lemma listen_for_wake_last_turn th e ep st :
  last_turn (snd (listen_for_wake th e ep st)) = last_turn st.
Proof.
  unfold listen_for_wake.
  destruct (USE_PUSH_TO_TALK (cfg e)).
  { destruct (ep_wait ep) as [[t|x]|]; reflexivity. }
  destruct (negb (openwakeword e)); [reflexivity|].
  destruct (ep_model ep) as [[]|x]; [|reflexivity].
  unfold AudioIO.microphone_stream.
  destruct (ep_mic ep) as [[]|x]; [|reflexivity].
  destruct (ep_start ep) as [[]|x]; [|reflexivity].
  pose proof (wake_loop_last_turn th (cfg e) (ep_iters ep)
                (log StreamStart (log StreamOpen st))) as H.
  destruct (wake_loop th (cfg e) (ep_iters ep) _) as [[k|x|] s1];
    simpl in *; exact H.
Qed.

(** C2, as amended.  What a turn leaves in the last-turn state depends
    on the step that raises: nothing changes when the wait for the
    trigger, the capture or the transcription raises; a turn whose
    routing raises leaves the new transcript next to the old response;
    a turn whose synthesis raises leaves the new transcript and the new
    response, as a successful turn does.  [last_transcript] is assigned
    before routing and [last_response] before synthesis. *)
Theorem last_turn_state_after_turn (e : env) (t : turn) (st : state) :
  let r := run_once e t st in
  match fst (listen_for_wake default_threshold e (t_episode t)
               (log ListenForWake st)) with
  | Ret _ =>
      match t_record t, t_transcribe t, t_command t, t_speak t with
      | Err x, _, _, _ =>
          fst r = Raise x /\ last_turn (snd r) = last_turn st
      | Ok _, Err x, _, _ =>
          fst r = Raise x /\ last_turn (snd r) = last_turn st
      | Ok _, Ok text, Err x, _ =>
          fst r = Raise x
          /\ last_turn (snd r) = (Some text, last_response st)
      | Ok _, Ok text, Ok response, Err x =>
          fst r = Raise x
          /\ last_turn (snd r) = (Some text, Some response)
      | Ok _, Ok text, Ok response, Ok _ =>
          fst r = Ret tt
          /\ last_turn (snd r) = (Some text, Some response)
      end
  | Raise x => fst r = Raise x /\ last_turn (snd r) = last_turn st
  | Blocked => fst r = Blocked /\ last_turn (snd r) = last_turn st
  end.
Proof.
  intros r. subst r. rewrite run_once_steps.
  pose proof (listen_for_wake_last_turn default_threshold e (t_episode t)
                (log ListenForWake st)) as Hl.
  destruct (listen_for_wake _ e (t_episode t) _) as [[k|x|] s1];
    simpl in Hl |- *; try (split; [reflexivity | exact Hl]).
  unfold last_turn in Hl. simpl in Hl. injection Hl as Ht Hr.
  destruct (t_record t) as [wav|x].
  2: { split; [reflexivity|]. unfold last_turn. simpl. congruence. }
  destruct (t_transcribe t) as [text|x].
  2: { split; [reflexivity|]. unfold last_turn. simpl. congruence. }
  destruct (t_command t) as [response|x].
  2: { split; [reflexivity|]. unfold last_turn. simpl. congruence. }
  destruct (t_speak t) as [[]|x]; split; reflexivity.
Qed.

(** C2 as stated fails.  The key goes down, capture and transcription
    succeed and routing raises: the turn fails, and the last-turn state
    now pairs the new transcript with the response of the turn
    before. *)
Lemma last_turn_state_counterexample :
  let t := Samples.turn_at 10 (Ok "/tmp/a.wav"%string)
             (Ok "arm garage camera"%string)
             (Err (RuntimeError "SCRYPTED_TOKEN is not configured"))
             (Ok tt) (Ok tt) in
  let r := run_once Samples.ptt_env t Samples.after_a_turn in
  fst r = Raise (RuntimeError "SCRYPTED_TOKEN is not configured")
  /\ last_turn Samples.after_a_turn
     = (Some "what time is it"%string, Some "noon"%string)
  /\ last_turn (snd r)
     = (Some "arm garage camera"%string, Some "noon"%string)
  /\ last_turn (snd r) <> last_turn Samples.after_a_turn.
Proof.
  repeat split; discriminate.
Qed.

(** *** Failures inside the loop *)

Module LoopFacts.

(** The events a turn adds once the trigger has fired, up to and
    including the call of the step that raises. *)
Definition turn_steps (t : turn) : list event :=
  RecordSeconds ::
  match t_record t with
  | Err _ => []
  | Ok wav =>
      LogInfo "recorded audio at %s" wav :: Transcribe wav ::
      match t_transcribe t with
      | Err _ => []
      | Ok text =>
          LogInfo "transcript: %s" text :: HandleCommand text ::
          match t_command t with
          | Err _ => []
          | Ok response =>
              [LogInfo "response: %s" response; Speak response]
          end
      end
  end.

(** Events of the trigger detector. *)
Definition is_detector (ev : event) : bool :=
  match ev with
  | StreamOpen | StreamStart | StreamStop | StreamClose
  | QueueGet | KeyWait | IsPressed => true
  | _ => false
  end.

(** Events that need the microphone stream or the wake-word model. *)
Definition uses_microphone (ev : event) : bool :=
  match ev with
  | StreamOpen | StreamStart | StreamStop | StreamClose
  | QueueGet | IsPressed => true
  | _ => false
  end.

(** Events inside a turn: anything but the entry into
    [listen_for_wake] and the handler's log record. *)
Definition in_turn (ev : event) : bool :=
  match ev with
  | ListenForWake | LogException _ => false
  | _ => true
  end.

(** What the handler of [run] adds to the trace after a turn that
    ended with outcome [o]: one log record followed by one apology
    when the turn raised an [Exception], nothing otherwise. *)
Definition handler_trace (o : outcome unit) : list event :=
  match o with
  | Raise exc =>
      if catchable exc then [LogException exc; Speak apology] else []
  | _ => []
  end.

End LoopFacts.
Import LoopFacts.

Lemma turn_steps_in_turn t : Forall (fun ev => in_turn ev = true) (turn_steps t).
Proof.
  unfold turn_steps.
  destruct (t_record t); [|repeat constructor].
  destruct (t_transcribe t); [|repeat constructor].
  destruct (t_command t); repeat constructor.
Qed.

(** The one call of [tts.speak] in a turn speaks the response. *)
Lemma turn_steps_speak t text :
  Speak text ∈ turn_steps t -> t_command t = Ok text.
Proof.
  unfold turn_steps. intros H.
  destruct (t_record t) as [wav|x];
    repeat (apply elem_of_cons in H as [H|H]; [discriminate|]);
    [|inversion H].
  destruct (t_transcribe t) as [tx|x];
    repeat (apply elem_of_cons in H as [H|H]; [discriminate|]);
    [|inversion H].
  destruct (t_command t) as [response|x]; [|inversion H].
  apply elem_of_cons in H as [H|H]; [discriminate|].
  apply elem_of_cons in H as [H|H]; [|inversion H].
  injection H as ->. reflexivity.
Qed.

Lemma turn_steps_no_microphone t :
  Forall (fun ev => uses_microphone ev = false) (turn_steps t).
Proof.
  unfold turn_steps.
  destruct (t_record t); [|repeat constructor].
  destruct (t_transcribe t); [|repeat constructor].
  destruct (t_command t); repeat constructor.
Qed.

(** The detector records nothing but its own events. *)
Lemma wake_loop_events th c its st :
  exists w,
    trace (snd (wake_loop th c its st)) = trace st ++ w
    /\ Forall (fun ev => is_detector ev = true) w.
Proof.
  revert st. induction its as [|it rest IH]; intros st; simpl.
  - exists []. rewrite app_nil_r. split; [reflexivity | constructor].
  - destruct (it_predict it) as [scores|x].
    + destruct (Qgtb _ th && _).
      * exists [QueueGet]. split; [reflexivity | repeat constructor].
      * destruct (it_pressed it && _).
        -- exists [QueueGet; IsPressed]. split.
           ++ simpl. rewrite <- app_assoc. reflexivity.
           ++ repeat constructor.
        -- destruct (IH (log IsPressed (log QueueGet st))) as (w & Htr & Hw).
           exists (QueueGet :: IsPressed :: w). split.
           ++ rewrite Htr. simpl. rewrite <- !app_assoc. reflexivity.
           ++ repeat constructor. exact Hw.
    + exists [QueueGet]. split; [reflexivity | repeat constructor].
Qed.

Lemma listen_for_wake_events th e ep st :
  exists w,
    trace (snd (listen_for_wake th e ep st)) = trace st ++ w
    /\ Forall (fun ev => is_detector ev = true) w
    /\ (USE_PUSH_TO_TALK (cfg e) = true -> w = [KeyWait]).
Proof.
  unfold listen_for_wake.
  destruct (USE_PUSH_TO_TALK (cfg e)).
  { exists [KeyWait].
    destruct (ep_wait ep) as [[t|x]|]; simpl; repeat constructor. }
  destruct (negb (openwakeword e)).
  { exists []. simpl. rewrite app_nil_r. repeat constructor. discriminate. }
  destruct (ep_model ep) as [[]|x].
  2: { exists []. simpl. rewrite app_nil_r. repeat constructor. discriminate. }
  unfold AudioIO.microphone_stream.
  destruct (ep_mic ep) as [[]|x].
  2: { exists []. simpl. rewrite app_nil_r. repeat constructor. discriminate. }
  destruct (ep_start ep) as [[]|x].
  2: { exists [StreamOpen; StreamStart]. simpl. rewrite <- app_assoc.
       repeat constructor. discriminate. }
  destruct (wake_loop_events th (cfg e) (ep_iters ep)
              (log StreamStart (log StreamOpen st))) as (w & Htr & Hw).
  destruct (wake_loop th (cfg e) (ep_iters ep) _) as [[k|x|] s1];
    simpl in Htr |- *.
  - exists ([StreamOpen; StreamStart] ++ w ++ [StreamStop; StreamClose]).
    split; [rewrite Htr; simpl; rewrite <- !app_assoc; reflexivity|].
    split; [|discriminate].
    repeat constructor. apply Forall_app. split; [exact Hw|repeat constructor].
  - exists ([StreamOpen; StreamStart] ++ w ++ [StreamStop; StreamClose]).
    split; [rewrite Htr; simpl; rewrite <- !app_assoc; reflexivity|].
    split; [|discriminate].
    repeat constructor. apply Forall_app. split; [exact Hw|repeat constructor].
  - exists ([StreamOpen; StreamStart] ++ w).
    split; [rewrite Htr; simpl; rewrite <- !app_assoc; reflexivity|].
    split; [|discriminate].
    repeat constructor. exact Hw.
Qed.

(** The trace of one [run_once]. *)
Lemma run_once_trace e t st :
  let r := listen_for_wake default_threshold e (t_episode t)
             (log ListenForWake st) in
  trace (snd (run_once e t st))
  = trace (snd r) ++ match fst r with
                     | Ret _ => turn_steps t
                     | _ => []
                     end.
Proof.
  intros r. subst r. rewrite run_once_steps. unfold turn_steps.
  destruct (listen_for_wake _ e (t_episode t) _) as [[k|x|] s1]; simpl;
    try (rewrite app_nil_r; reflexivity).
  destruct (t_record t) as [wav|x]; [|reflexivity].
  destruct (t_transcribe t) as [text|x];
    [|simpl; rewrite <- !app_assoc; reflexivity].
  destruct (t_command t) as [response|x];
    [|simpl; rewrite <- !app_assoc; reflexivity].
  destruct (t_speak t) as [u|x]; simpl; rewrite <- !app_assoc; reflexivity.
Qed.

Lemma run_once_body e t st :
  exists body,
    trace (snd (run_once e t st)) = trace st ++ ListenForWake :: body
    /\ Forall (fun ev => in_turn ev = true) body
    /\ (USE_PUSH_TO_TALK (cfg e) = true ->
        Forall (fun ev => uses_microphone ev = false) body)
    /\ (forall text, Speak text ∈ body -> t_command t = Ok text).
Proof.
  pose proof (run_once_trace e t st) as Htr. simpl in Htr.
  destruct (listen_for_wake_events default_threshold e (t_episode t)
              (log ListenForWake st)) as (w & Hw & Hdet & Hptt).
  rewrite Hw in Htr. simpl in Htr.
  exists (w ++ match fst (listen_for_wake default_threshold e (t_episode t)
                            (log ListenForWake st)) with
               | Ret _ => turn_steps t
               | _ => []
               end).
  split; [rewrite Htr, <- !app_assoc; reflexivity|]. split; [|split].
  - apply Forall_app. split.
    + eapply Forall_impl; [exact Hdet|]. intros ev. destruct ev; simpl; congruence.
    + destruct (fst _); [apply turn_steps_in_turn | constructor ..].
  - intros Hmode. rewrite (Hptt Hmode). apply Forall_app. split.
    + repeat constructor.
    + destruct (fst _); [apply turn_steps_no_microphone | constructor ..].
  - intros text Hin. apply elem_of_app in Hin as [Hin|Hin].
    + rewrite Forall_forall in Hdet. apply Hdet in Hin. discriminate.
    + destruct (fst _); [apply turn_steps_speak; exact Hin | inversion Hin ..].
Qed.

(** The loop over a longer observation is the loop continued. *)
Lemma run_app e turns1 turns2 st :
  run e (turns1 ++ turns2) st
  = match run e turns1 st with
    | (Running, s) => run e turns2 s
    | other => other
    end.
Proof.
  revert st. induction turns1 as [|t rest IH]; intros st; simpl.
  - reflexivity.
  - destruct (run_once e t st) as [[u|exc|] s1].
    + apply IH.
    + destruct (catchable exc); [|reflexivity].
      destruct (call (Speak apology) (t_apology t) _) as [[u|e2|] s2].
      * apply IH.
      * destruct (catchable e2); [apply IH | reflexivity].
      * apply IH.
    + reflexivity.
Qed.

(** The loop only adds to the trace, and an iteration adds the entry
    into [listen_for_wake] first. *)
Lemma run_trace_extends e turns st :
  exists new, trace (snd (run e turns st)) = trace st ++ new.
Proof.
  revert st. induction turns as [|t rest IH]; intros st.
  - exists []. simpl. rewrite app_nil_r. reflexivity.
  - destruct (run_once_body e t st) as (body & Hbody & _). simpl.
    destruct (run_once e t st) as [[u|exc|] s1]; simpl in Hbody.
    + destruct (IH s1) as (new & Htr). rewrite Htr, Hbody, <- app_assoc. eauto.
    + destruct (catchable exc); [|eauto].
      assert (Hs2 : trace (log (Speak apology) (log (LogException exc) s1))
                    = trace st ++ (ListenForWake :: body)
                        ++ [LogException exc; Speak apology]).
      { simpl. rewrite Hbody, <- !app_assoc. reflexivity. }
      unfold call. destruct (t_apology t) as [u|e2].
      * destruct (IH (log (Speak apology) (log (LogException exc) s1)))
          as (new & Htr).
        rewrite Htr, Hs2, <- app_assoc. eauto.
      * destruct (catchable e2); [|eauto].
        destruct (IH (log (Speak apology) (log (LogException exc) s1)))
          as (new & Htr).
        rewrite Htr, Hs2, <- app_assoc. eauto.
    + eauto.
Qed.

Lemma run_next_waits e t rest st :
  exists more,
    trace (snd (run e (t :: rest) st)) = trace st ++ ListenForWake :: more.
Proof.
  destruct (run_once_body e t st) as (body & Hbody & _).
  change (t :: rest) with ([t] ++ rest). rewrite run_app.
  destruct (run_trace_extends e [t] st) as (new1 & H1).
  assert (Hfirst : exists more1,
             trace (snd (run e [t] st)) = trace st ++ ListenForWake :: more1).
  { simpl. destruct (run_once e t st) as [[u|exc|] s1]; simpl in Hbody.
    - eauto.
    - destruct (catchable exc); [|eauto].
      unfold call.
      assert (Hs2 : trace (log (Speak apology) (log (LogException exc) s1))
                    = trace st ++ ListenForWake
                        :: (body ++ [LogException exc; Speak apology])).
      { simpl. rewrite Hbody. simpl. rewrite <- !app_assoc. reflexivity. }
      destruct (t_apology t) as [u|e2]; [eauto|].
      destruct (catchable e2); eauto.
    - eauto. }
  destruct Hfirst as (more1 & Hm1).
  destruct (run e [t] st) as [[| |x] s] eqn:Hr; simpl in Hm1; eauto.
  destruct (run_trace_extends e rest s) as (new & Hnew).
  exists (more1 ++ new). rewrite Hnew, Hm1, <- app_assoc. reflexivity.
Qed.

(** One loop iteration whose turn raises an [Exception]. *)
Lemma run_failed_turn e t rest st exc st1 :
  run_once e t st = (Raise exc, st1) ->
  catchable exc = true ->
  run e (t :: rest) st =
  match t_apology t with
  | Ok _ => run e rest (handled exc st1)
  | Err e2 =>
      if catchable e2 then run e rest (handled exc st1)
      else (Exited e2, handled exc st1)
  end.
Proof.
  intros Honce Hc. simpl. rewrite Honce, Hc. unfold call, handled.
  destruct (t_apology t) as [u|e2]; reflexivity.
Qed.

(** The loop is left only through an exception that [except Exception]
    does not catch. *)
Lemma run_exit_uncatchable e turns st x :
  fst (run e turns st) = Exited x -> catchable x = false.
Proof.
  revert st. induction turns as [|t rest IH]; intros st H; simpl in H.
  - discriminate.
  - destruct (run_once e t st) as [[u|exc|] s1].
    + exact (IH _ H).
    + destruct (catchable exc) eqn:Hc.
      * unfold call in H. destruct (t_apology t) as [u|e2].
        -- exact (IH _ H).
        -- destruct (catchable e2) eqn:Hc2.
           ++ exact (IH _ H).
           ++ simpl in H. injection H as <-. exact Hc2.
      * simpl in H. injection H as <-. exact Hc.
    + discriminate.
Qed.

(** C4.  A turn that raises an exception (an instance of [Exception],
    which is what the handler catches) aborts that turn only.  The loop
    iteration of that turn ends with the loop still running, in the
    state the turn left plus two trace entries: the log record of the
    exception and one call of [tts.speak] with the apology -- the same
    whether the apology succeeds or raises itself.  Nothing else is
    changed, the loop goes on with the remaining iterations from that
    state, and the next thing it does is to wait for the next trigger.
    The loop is never left through a turn failure: it exits only
    through an exception outside [Exception], such as
    [KeyboardInterrupt]. *)
Theorem turn_failure_is_isolated (e : env) (t : turn) (rest : list turn)
    (st st1 : state) (exc : exn) :
  run_once e t st = (Raise exc, st1) ->
  catchable exc = true ->
  apology_contained t = true ->
  let st2 := log (Speak apology) (log (LogException exc) st1) in
  run e [t] st = (Running, st2)
  /\ trace st2 = trace st1 ++ [LogException exc; Speak apology]
  /\ last_turn st2 = last_turn st1
  /\ LAST_TRIGGER st2 = LAST_TRIGGER st1
  /\ run e (t :: rest) st = run e rest st2
  /\ (rest <> [] ->
      exists more,
        trace (snd (run e (t :: rest) st))
        = trace st1 ++ [LogException exc; Speak apology; ListenForWake]
            ++ more)
  /\ (forall (turns : list turn) (st0 : state) (x : exn),
        fst (run e turns st0) = Exited x -> catchable x = false).
Proof.
  intros Honce Hc Hap st2.
  assert (Hstep : forall l, run e (t :: l) st = run e l st2).
  { intros l. rewrite (run_failed_turn e t l st exc st1 Honce Hc).
    unfold apology_contained in Hap. fold (handled exc st1) in st2.
    destruct (t_apology t) as [u|e2]; [reflexivity|].
    rewrite Hap. reflexivity. }
  assert (Htr : trace st2 = trace st1 ++ [LogException exc; Speak apology]).
  { simpl. rewrite <- app_assoc. reflexivity. }
  split; [exact (Hstep [])|]. split; [exact Htr|].
  split; [reflexivity|]. split; [reflexivity|]. split; [exact (Hstep rest)|].
  split.
  - intros Hrest. destruct rest as [|t' rest']; [congruence|].
    rewrite Hstep.
    destruct (run_next_waits e t' rest' st2) as (more & Hmore).
    exists more. rewrite Hmore, Htr, <- app_assoc. reflexivity.
  - intros turns st0 x. apply run_exit_uncatchable.
Qed.

Lemma turn_failure_is_isolated_witness :
  let t1 := Samples.turn_at 10 (Ok "/tmp/a.wav"%string) (Ok "hello"%string)
              (Ok "hi there"%string) (Err Samples.no_tts)
              (Err Samples.no_tts) in
  let t2 := Samples.turn_at 20 (Ok "/tmp/b.wav"%string) (Ok "bye"%string)
              (Ok "goodbye"%string) (Ok tt) (Ok tt) in
  let st1 := snd (run_once Samples.ptt_env t1 initial_state) in
  let st2 := log (Speak apology) (log (LogException Samples.no_tts) st1) in
  run Samples.ptt_env [t1] initial_state = (Running, st2)
  /\ trace st2 = trace st1 ++ [LogException Samples.no_tts; Speak apology]
  /\ last_turn st2 = last_turn st1
  /\ LAST_TRIGGER st2 = LAST_TRIGGER st1
  /\ run Samples.ptt_env [t1; t2] initial_state
     = run Samples.ptt_env [t2] st2
  /\ ([t2] <> [] ->
      exists more,
        trace (snd (run Samples.ptt_env [t1; t2] initial_state))
        = trace st1
            ++ [LogException Samples.no_tts; Speak apology; ListenForWake]
            ++ more)
  /\ (forall (turns : list turn) (st0 : state) (x : exn),
        fst (run Samples.ptt_env turns st0) = Exited x ->
        catchable x = false).
Proof.
  intros t1 t2 st1.
  apply (turn_failure_is_isolated Samples.ptt_env t1 [t2] initial_state st1
           Samples.no_tts).
  - reflexivity.
  - reflexivity.
  - reflexivity.
Defined.

(** *** The detector is missing *)

Lemma run_once_deaf e t st :
  USE_PUSH_TO_TALK (cfg e) = false ->
  openwakeword e = false ->
  run_once e t st
  = (Raise (RuntimeError "openwakeword not available"),
     log ListenForWake st).
Proof.
  intros Hmode Hav. rewrite run_once_steps. unfold listen_for_wake.
  rewrite Hmode, Hav. reflexivity.
Qed.

(** C3, as amended.  In wake-word mode without [openwakeword] the loop
    does start: in every iteration [listen_for_wake] raises
    [RuntimeError] inside [run_once], the handler of [run] catches and
    logs it and attempts the apology, and the loop goes on to the next
    iteration.  No turn gets past the trigger step and the state other
    than the trace stays what it was. *)
Theorem detector_unavailable_is_caught_each_turn (e : env)
    (turns : list turn) (st : state) :
  USE_PUSH_TO_TALK (cfg e) = false ->
  openwakeword e = false ->
  forallb apology_contained turns = true ->
  fst (run e turns st) = Running
  /\ trace (snd (run e turns st))
     = trace st ++ concat (map (fun _ => deaf_turn) turns)
  /\ last_turn (snd (run e turns st)) = last_turn st
  /\ LAST_TRIGGER (snd (run e turns st)) = LAST_TRIGGER st.
Proof.
  intros Hmode Hav. revert st.
  induction turns as [|t rest IH]; intros st Hall.
  - simpl. rewrite app_nil_r. auto.
  - simpl in Hall. apply andb_true_iff in Hall as [Hap Hall].
    rewrite (run_failed_turn e t rest st _ _ (run_once_deaf e t st Hmode Hav)
               eq_refl).
    assert (Hgo : (match t_apology t with
                   | Ok _ =>
                       run e rest
                         (handled (RuntimeError "openwakeword not available")
                            (log ListenForWake st))
                   | Err e2 =>
                       if catchable e2
                       then run e rest
                              (handled
                                 (RuntimeError "openwakeword not available")
                                 (log ListenForWake st))
                       else (Exited e2,
                             handled
                               (RuntimeError "openwakeword not available")
                               (log ListenForWake st))
                   end)
                  = run e rest
                      (handled (RuntimeError "openwakeword not available")
                         (log ListenForWake st))).
    { unfold apology_contained in Hap.
      destruct (t_apology t) as [u|e2]; [reflexivity|].
      rewrite Hap. reflexivity. }
    rewrite Hgo.
    destruct (IH (handled (RuntimeError "openwakeword not available")
                    (log ListenForWake st)) Hall)
      as (Hs & Htr & Hlt & Hlast).
    split; [exact Hs|]. split; [|split; [exact Hlt | exact Hlast]].
    rewrite Htr. simpl. rewrite <- !app_assoc. reflexivity.
Qed.

Lemma detector_unavailable_is_caught_each_turn_witness :
  let turns := [Samples.heard_at 10 (Ok tt);
                Samples.heard_at 20 (Err Samples.no_tts)] in
  fst (run Samples.deaf_env turns initial_state) = Running
  /\ trace (snd (run Samples.deaf_env turns initial_state))
     = trace initial_state ++ concat (map (fun _ => deaf_turn) turns)
  /\ last_turn (snd (run Samples.deaf_env turns initial_state))
     = last_turn initial_state
  /\ LAST_TRIGGER (snd (run Samples.deaf_env turns initial_state))
     = LAST_TRIGGER initial_state.
Proof.
  intros turns.
  apply (detector_unavailable_is_caught_each_turn Samples.deaf_env turns
           initial_state).
  - reflexivity.
  - reflexivity.
  - reflexivity.
Defined.

(** C3 as stated fails.  Without [openwakeword], two iterations of the
    loop run: each logs the [RuntimeError] and attempts the apology,
    and the loop is still running afterwards; the error did not leave
    [run]. *)
Lemma detector_unavailable_counterexample :
  let r := run Samples.deaf_env
             [Samples.heard_at 10 (Ok tt);
              Samples.heard_at 20 (Err Samples.no_tts)]
             initial_state in
  fst r = Running
  /\ fst r <> Exited (RuntimeError "openwakeword not available")
  /\ trace (snd r)
     = [ListenForWake;
        LogException (RuntimeError "openwakeword not available");
        Speak apology;
        ListenForWake;
        LogException (RuntimeError "openwakeword not available");
        Speak apology].
Proof.
  split; [reflexivity|]. split; [discriminate | reflexivity].
Qed.

(** ** Capture and playback *)

Import AudioIO.

Lemma wrap16_mod (z : Z) : wrap16 (z mod 65536) = wrap16 z.
Proof.
  unfold wrap16. rewrite Zplus_mod_idemp_l. reflexivity.
Qed.

Lemma wrap16_range (z : Z) : -32768 <= wrap16 z < 32768.
Proof.
  unfold wrap16. pose proof (Z.mod_pos_bound (z + 32768) 65536). lia.
Qed.

Lemma wrap16_idem (z : Z) : wrap16 (wrap16 z) = wrap16 z.
Proof.
  pose proof (wrap16_range z) as Hr. unfold wrap16 at 1.
  replace (wrap16 z + 32768) with ((wrap16 z + 32768) + 0) by lia.
  rewrite Z.mod_small by lia. lia.
Qed.

Lemma length_tobytes (samples : list Z) :
  length (tobytes samples) = (2 * length samples)%nat.
Proof.
  induction samples as [|z rest IH]; [reflexivity|].
  change (tobytes (z :: rest)) with (int16_bytes z ++ tobytes rest).
  rewrite length_app, IH. simpl. lia.
Qed.

(** Decoding what [tobytes] wrote gives the samples back, as int16. *)
Lemma frombuffer_tobytes (samples : list Z) :
  frombuffer_int16 (tobytes samples) = Some (map wrap16 samples).
Proof.
  induction samples as [|z rest IH]; [reflexivity|].
  change (tobytes (z :: rest))
    with ((z mod 65536) mod 256 :: (z mod 65536) / 256 :: tobytes rest).
  simpl. rewrite IH. f_equal. f_equal.
  rewrite <- (wrap16_mod z). f_equal.
  pose proof (Z.div_mod (z mod 65536) 256). lia.
Qed.

Lemma wrap16_small (z : Z) : -32768 <= z < 32768 -> wrap16 z = z.
Proof.
  intros Hz. unfold wrap16. rewrite Z.mod_small by lia. lia.
Qed.

(** Whatever the amplitude, the sample written is a 16-bit integer. *)
Lemma to_int16_range (cast : spec_float -> Z) (x : spec_float) :
  -32768 <= to_int16 cast x < 32768.
Proof.
  unfold to_int16.
  destruct (SFmul 24 128 x _) as [s|s| |s m e];
    try apply wrap16_range.
  - simpl. lia.
  - destruct (_ && _) eqn:Hin; [|apply wrap16_range].
    apply andb_true_iff in Hin as [Hlo Hhi].
    apply Z.leb_le in Hlo, Hhi. lia.
Qed.


(** Reading back every frame of a 16-bit container written from whole
    samples returns its whole data chunk. *)
Lemma readframes_all (ch rate : Z) (samples : list Z) (frames : Z) :
  0 < ch ->
  Z.of_nat (length samples) = frames * ch ->
  let w := {| nchannels := ch; sampwidth := 2; framerate := rate;
              frames_data := tobytes samples |} in
  getnframes w = frames /\ readframes w (getnframes w) = tobytes samples.
Proof.
  intros Hch Hlen w.
  assert (Hn : getnframes w = frames).
  { unfold getnframes, w. simpl. rewrite length_tobytes.
    replace (Z.of_nat (2 * length samples)) with (frames * (ch * 2)) by lia.
    apply Z.div_mul. lia. }
  split; [exact Hn|].
  unfold readframes. rewrite Hn. unfold w. simpl.
  apply take_ge. rewrite length_tobytes. lia.
Qed.





(** ** Tool calls *)

Module ToolFacts.
Import Json Net.

(** A tool name that [handle_tool] knows. *)
Definition recognized (tool : value) : bool :=
  eq_str tool "scrypted.snapshot" || eq_str tool "scrypted.arm".

(** The blocks handed to the tool handler, in order. *)
Fixpoint tool_calls (l : list net_event) : list (gmap string value) :=
  match l with
  | [] => []
  | ToolCall b :: rest => b :: tool_calls rest
  | Http _ :: rest => tool_calls rest
  end.

(** The decoded value is an object that has the key ["tool"]. *)
Definition tool_block (decoded : value) : option (gmap string value) :=
  match decoded with
  | Obj block =>
      match block !! "tool" with
      | Some _ => Some block
      | None => None
      end
  | _ => None
  end.

(** A computation that only appends to the trace, and no tool call. *)
Definition quiet {A} (m : N A) : Prop :=
  forall tr, exists new, snd (m tr) = tr ++ new /\ tool_calls new = [].

End ToolFacts.
Import Json Net ToolFacts.

Lemma tool_calls_app (l1 l2 : list net_event) :
  tool_calls (l1 ++ l2) = tool_calls l1 ++ tool_calls l2.
Proof.
  induction l1 as [|[r|b] l1 IH]; simpl; [reflexivity | exact IH |].
  rewrite IH. reflexivity.
Qed.

Lemma quiet_ret {A} (a : A) : quiet (mret a).
Proof.
  intros tr. exists []. rewrite app_nil_r. split; reflexivity.
Qed.

Lemma quiet_lift {A} (r : result A) : quiet (lift r).
Proof.
  intros tr. exists []. rewrite app_nil_r. split; reflexivity.
Qed.

Lemma quiet_http net r : quiet (http net r).
Proof.
  intros tr. exists [Http r]. split; reflexivity.
Qed.

Lemma quiet_bind {A B} (m : N A) (f : A -> N B) :
  quiet m -> (forall a, quiet (f a)) -> quiet (m ≫= f).
Proof.
  intros Hm Hf tr. unfold mbind, N_bind.
  destruct (Hm tr) as (new1 & Htr1 & Hq1).
  destruct (m tr) as [[a|e] tr1]; simpl in Htr1; subst tr1.
  - destruct (Hf a (tr ++ new1)) as (new2 & Htr2 & Hq2).
    exists (new1 ++ new2). rewrite Htr2, app_assoc, tool_calls_app, Hq1, Hq2.
    split; reflexivity.
  - exists new1. split; [reflexivity | exact Hq1].
Qed.

Lemma quiet_raise_for_status resp : quiet (raise_for_status resp).
Proof.
  unfold raise_for_status.
  destruct (_ && _); [apply quiet_lift | apply quiet_ret].
Qed.

Lemma quiet_snapshot c net device_id :
  quiet (Scrypted.snapshot c net device_id).
Proof.
  unfold Scrypted.snapshot.
  apply quiet_bind; [apply quiet_lift | intros _].
  apply quiet_bind; [apply quiet_http | intros resp].
  apply quiet_bind; [apply quiet_raise_for_status | intros _].
  apply quiet_ret.
Qed.

Lemma quiet_arm c net device_id : quiet (Scrypted.arm c net device_id).
Proof.
  unfold Scrypted.arm.
  apply quiet_bind; [apply quiet_lift | intros _].
  apply quiet_bind; [apply quiet_http | intros resp].
  destruct (status_code resp =? 404); [apply quiet_ret|].
  apply quiet_bind; [apply quiet_raise_for_status | intros _].
  apply quiet_ret.
Qed.

Lemma quiet_analyze_image net prompt image :
  quiet (Vlm.analyze_image net prompt image).
Proof.
  unfold Vlm.analyze_image.
  apply quiet_bind; [apply quiet_http | intros resp].
  apply quiet_bind; [apply quiet_raise_for_status | intros _].
  apply quiet_bind; [apply quiet_lift | intros j].
  apply quiet_bind; [apply quiet_lift | intros message].
  apply quiet_lift.
Qed.

Lemma quiet_handle_tool c net block : quiet (Intents.handle_tool c net block).
Proof.
  unfold Intents.handle_tool.
  destruct (eq_str _ "scrypted.snapshot").
  { apply quiet_bind; [apply quiet_lift | intros device_id].
    destruct (negb (truthy device_id)); [apply quiet_ret|].
    apply quiet_bind; [apply quiet_snapshot | intros image].
    apply quiet_bind; [apply quiet_lift | intros prompt].
    apply quiet_analyze_image. }
  destruct (eq_str _ "scrypted.arm").
  { apply quiet_bind; [apply quiet_lift | intros device_id].
    destruct (negb (truthy device_id)); [apply quiet_ret|].
    apply quiet_bind; [apply quiet_arm | intros ok].
    apply quiet_ret. }
  apply quiet_ret.
Qed.

(** C9.  A block whose tool is ["scrypted.snapshot"] or
    ["scrypted.arm"] and whose [args] -- a mapping, or absent and so
    the empty mapping -- has no [device_id] or a falsy one makes
    [handle_tool] return ["device_id missing"]; a block with any other
    tool, or none, makes it return ["Unknown tool"].  In both cases
    nothing is raised and the trace is unchanged: no HTTP request was
    sent. *)
Theorem handle_tool_without_device_id (c : config) (net : network)
    (block : gmap string value) (tr : list net_event) :
  let tool := default Null (block !! "tool") in
  (forall args : gmap string value,
      recognized tool = true ->
      default (Obj ∅) (block !! "args") = Obj args ->
      truthy (default Null (args !! "device_id")) = false ->
      Intents.handle_tool c net block tr
      = (Ok (Str "device_id missing"), tr))
  /\ (recognized tool = false ->
      Intents.handle_tool c net block tr = (Ok (Str "Unknown tool"), tr)).
Proof.
  intros tool. unfold recognized, Intents.handle_tool. fold tool. split.
  - intros args Hrec Hargs Hfalsy. rewrite Hargs.
    destruct (eq_str tool "scrypted.snapshot").
    + unfold mbind, N_bind, lift. simpl. rewrite Hfalsy. reflexivity.
    + simpl in Hrec. rewrite Hrec.
      unfold mbind, N_bind, lift. simpl. rewrite Hfalsy. reflexivity.
  - intros Hrec. apply orb_false_iff in Hrec as [-> ->]. reflexivity.
Qed.

Lemma handle_tool_without_device_id_witness :
  (Intents.handle_tool (Samples.base_config false) Samples.offline
     {[ "tool"%string := Str "scrypted.arm";
        "args"%string := Obj {[ "device_id"%string := Str "" ]} ]} []
   = (Ok (Str "device_id missing"), []))
  /\ (Intents.handle_tool (Samples.base_config false) Samples.offline
        {[ "tool"%string := Str "lights.on" ]} []
      = (Ok (Str "Unknown tool"), [])).
Proof.
  split.
  - apply (proj1 (handle_tool_without_device_id (Samples.base_config false)
                    Samples.offline
                    {[ "tool"%string := Str "scrypted.arm";
                       "args"%string := Obj {[ "device_id"%string := Str "" ]} ]}
                    [])
             {[ "device_id"%string := Str "" ]}).
    + reflexivity.
    + reflexivity.
    + reflexivity.
  - apply (proj2 (handle_tool_without_device_id (Samples.base_config false)
                    Samples.offline
                    {[ "tool"%string := Str "lights.on" ]} [])).
    reflexivity.
Defined.

(** *** The chat backend *)

Import Llm.

(** [chat] once the backend has answered with a text. *)
Lemma chat_answered json_loads c net prompt system tr resp j text :
  net (OllamaGenerate (payload prompt system)) = Ok resp ->
  (400 <=? status_code resp) && (status_code resp <? 600) = false ->
  body resp = Ok j ->
  get j "response" (Str "") = Ok (Str text) ->
  chat json_loads c net prompt system tr
  = match json_loads text with
    | Ok v =>
        match tool_block v with
        | Some block =>
            _route_tool c net block
              (tr ++ [Http (OllamaGenerate (payload prompt system))])
        | None =>
            (Ok (Str text),
             tr ++ [Http (OllamaGenerate (payload prompt system))])
        end
    | Err e =>
        (if is_JSONDecodeError e then Ok (Str text) else Err e,
         tr ++ [Http (OllamaGenerate (payload prompt system))])
    end.
Proof.
  intros Hnet Hstatus Hbody Hget.
  unfold chat, mbind, N_bind, http, raise_for_status, lift. simpl.
  rewrite Hnet, Hstatus. simpl. rewrite Hbody, Hget.
  unfold tool_block.
  destruct (json_loads text) as [[| | | | | |block]|e]; try reflexivity.
  - destruct (block !! "tool"); reflexivity.
  - destruct (is_JSONDecodeError e); reflexivity.
Qed.

Lemma tool_block_Some (decoded : value) :
  (exists block, tool_block decoded = Some block)
  <-> (exists block, decoded = Obj block /\ is_Some (block !! "tool")).
Proof.
  unfold tool_block. split.
  - intros [b Hb].
    destruct decoded as [| | | | | |block]; try discriminate.
    exists block. split; [reflexivity|].
    destruct (block !! "tool") as [v|]; [eauto | discriminate].
  - intros (block & -> & [v Hv]). exists block. rewrite Hv. reflexivity.
Qed.

(** C10.  The claim fails on a text that makes [json.loads] raise
    something other than [json.JSONDecodeError]: [ValueError] on an
    integer literal of more than 4300 digits, which is JSON and not an
    object, or [RecursionError] on nesting deeper than the stack.  The
    handler in [chat] does not catch it: [chat] raises that exception
    after its one request, the text is not returned, and nothing is
    handed to the tool handler. *)
Theorem chat_raises_what_json_loads_raises
    (json_loads : string -> result value) (c : config) (net : network)
    (prompt : string) (system : option string) (tr : list net_event)
    (resp : response) (j : value) (text : string) (e : exn) :
  net (OllamaGenerate (payload prompt system)) = Ok resp ->
  (400 <=? status_code resp) && (status_code resp <? 600) = false ->
  body resp = Ok j ->
  get j "response" (Str "") = Ok (Str text) ->
  json_loads text = Err e ->
  is_JSONDecodeError e = false ->
  let r := chat json_loads c net prompt system tr in
  r = (Err e, tr ++ [Http (OllamaGenerate (payload prompt system))])
  /\ fst r <> Ok (Str text)
  /\ tool_calls (drop (length tr) (snd r)) = [].
Proof.
  intros Hnet Hstatus Hbody Hget Hloads Hclass r. subst r.
  rewrite (chat_answered json_loads c net prompt system tr resp j text
             Hnet Hstatus Hbody Hget), Hloads, Hclass. simpl.
  split; [reflexivity|]. split; [discriminate|].
  rewrite drop_app_length. reflexivity.
Qed.

Lemma chat_raises_what_json_loads_raises_witness :
  let text := Samples.repeated Samples.one 4301 in
  let r := chat Samples.loads (Samples.base_config false)
             (Samples.answering (Samples.reply text)) "count" None [] in
  r = (Err Samples.too_many_digits,
       [] ++ [Http (OllamaGenerate (payload "count" None))])
  /\ fst r <> Ok (Str text)
  /\ tool_calls (drop (length ([] : list net_event)) (snd r)) = [].
Proof.
  intros text.
  apply (chat_raises_what_json_loads_raises Samples.loads
           (Samples.base_config false)
           (Samples.answering (Samples.reply text)) "count" None []
           {| status_code := 200; content := [];
              body := Ok (Samples.reply text) |}
           (Samples.reply text) text Samples.too_many_digits).
  - reflexivity.
  - reflexivity.
  - reflexivity.
  - reflexivity.
  - vm_compute. reflexivity.
  - reflexivity.
Defined.

(** The same on 100000 opening brackets: [chat] raises
    [RecursionError]. *)
Example test_deep_nesting :
  let text := Samples.repeated Samples.bracket (Z.to_nat 100000) in
  Samples.loads text = Err Samples.too_deep
  /\ is_JSONDecodeError Samples.too_deep = false
  /\ catchable Samples.too_deep = true.
Proof.
  split; [vm_compute; reflexivity|]. split; reflexivity.
Qed.

(** X27.  Once the backend has answered with a text, [chat] hands a
    block to the tool handler if and only if [json.loads] decodes the
    text to an object that has the key ["tool"]; the block is that
    object, it is handed over once, and the result of [chat] is the
    handler's.  When [json.loads] decodes the text to anything else --
    a value that is not an object, an object without ["tool"] -- or
    raises [json.JSONDecodeError], the handler is not called and [chat]
    returns the text itself.  When [json.loads] raises any other
    exception, the handler is not called and [chat] raises that
    exception. *)
Theorem chat_routes_tool_objects (json_loads : string -> result value)
    (c : config) (net : network) (prompt : string) (system : option string)
    (tr : list net_event) (resp : response) (j : value) (text : string) :
  net (OllamaGenerate (payload prompt system)) = Ok resp ->
  (400 <=? status_code resp) && (status_code resp <? 600) = false ->
  body resp = Ok j ->
  get j "response" (Str "") = Ok (Str text) ->
  let sent := tr ++ [Http (OllamaGenerate (payload prompt system))] in
  let r := chat json_loads c net prompt system tr in
  let routed := tool_calls (drop (length tr) (snd r)) in
  ((exists block, block ∈ routed)
   <-> (exists block, json_loads text = Ok (Obj block)
                      /\ is_Some (block !! "tool")))
  /\ match json_loads text with
     | Ok v =>
         match tool_block v with
         | Some block =>
             routed = [block]
             /\ r = Intents.handle_tool c net block (sent ++ [ToolCall block])
         | None => routed = [] /\ r = (Ok (Str text), sent)
         end
     | Err e =>
         routed = []
         /\ r = (if is_JSONDecodeError e then Ok (Str text) else Err e, sent)
     end.
Proof.
  intros Hnet Hstatus Hbody Hget sent r routed.
  pose proof (chat_answered json_loads c net prompt system tr resp j text
                Hnet Hstatus Hbody Hget) as Hr.
  fold r sent in Hr.
  assert (Hsent : tool_calls (drop (length tr) sent) = []).
  { unfold sent. rewrite drop_app_length. reflexivity. }
  destruct (json_loads text) as [v|e] eqn:Hloads.
  - assert (Hcases : match tool_block v with
                     | Some block =>
                         routed = [block]
                         /\ r = Intents.handle_tool c net block
                                  (sent ++ [ToolCall block])
                     | None => routed = [] /\ r = (Ok (Str text), sent)
                     end).
    { destruct (tool_block v) as [block|].
      - unfold _route_tool in Hr. split; [|exact Hr].
        destruct (quiet_handle_tool c net block (sent ++ [ToolCall block]))
          as (new & Htr & Hq).
        unfold routed. rewrite Hr, Htr. unfold sent.
        rewrite <- !app_assoc, drop_app_length.
        simpl. rewrite Hq. reflexivity.
      - split; [|exact Hr]. unfold routed. rewrite Hr. exact Hsent. }
    split; [|exact Hcases].
    transitivity (exists block, tool_block v = Some block).
    + destruct (tool_block v) as [block|].
      * destruct Hcases as [-> _]. split; intros _; exists block.
        -- reflexivity.
        -- apply list_elem_of_here.
      * destruct Hcases as [-> _]. split.
        -- intros [b Hb]. inversion Hb.
        -- intros [b Hb]. discriminate.
    + rewrite tool_block_Some. split.
      * intros (block & -> & Hk). eauto.
      * intros (block & Hb & Hk). injection Hb as ->. eauto.
  - assert (Hrouted : routed = []).
    { unfold routed. rewrite Hr. exact Hsent. }
    split; [|split; [exact Hrouted | exact Hr]].
    rewrite Hrouted. split.
    + intros [b Hb]. inversion Hb.
    + intros (block & Hb & _). discriminate.
Qed.

Lemma chat_routes_tool_objects_witness :
  let c := Samples.base_config false in
  let net := Samples.answering (Samples.reply "<arm call>") in
  let sent := [] ++ [Http (OllamaGenerate (payload "arm it" None))] in
  let r := chat Samples.loads c net "arm it" None [] in
  let routed := tool_calls (drop (length ([] : list net_event)) (snd r)) in
  ((exists block, block ∈ routed)
   <-> (exists block, Samples.loads "<arm call>" = Ok (Obj block)
                      /\ is_Some (block !! "tool")))
  /\ match Samples.loads "<arm call>" with
     | Ok v =>
         match tool_block v with
         | Some block =>
             routed = [block]
             /\ r = Intents.handle_tool c net block (sent ++ [ToolCall block])
         | None => routed = [] /\ r = (Ok (Str "<arm call>"), sent)
         end
     | Err e =>
         routed = []
         /\ r = (if is_JSONDecodeError e then Ok (Str "<arm call>")
                 else Err e, sent)
     end.
Proof.
  apply (chat_routes_tool_objects Samples.loads (Samples.base_config false)
           (Samples.answering (Samples.reply "<arm call>")) "arm it" None []
           {| status_code := 200; content := [];
              body := Ok (Samples.reply "<arm call>") |}
           (Samples.reply "<arm call>") "<arm call>").
  - reflexivity.
  - reflexivity.
  - reflexivity.
  - reflexivity.
Defined.

(** * Further properties *)

(** ** The trigger detector, continued *)

(** A trigger the loop returns was earned by one of its iterations. *)
Lemma wake_loop_sound th c its st k st' :
  wake_loop th c its st = (Ret k, st') ->
  exists it scores,
    it ∈ its
    /\ it_predict it = Ok scores
    /\ LAST_TRIGGER st' = it_now it
    /\ (1 < it_now it - LAST_TRIGGER st)%Q
    /\ ((k = "wakeword"%string
         /\ (th < default 0%Q (scores !! WAKEWORD c))%Q)
        \/ (k = "push_to_talk"%string
            /\ it_pressed it = true
            /\ (default 0%Q (scores !! WAKEWORD c) <= th)%Q)).
Proof.
  revert st. induction its as [|it rest IH]; intros st H; simpl in H.
  - discriminate.
  - destruct (it_predict it) as [scores|x] eqn:Hp; [|discriminate].
    destruct (Qgtb _ th && _) eqn:Hw.
    + injection H as <- <-. exists it, scores.
      apply andb_true_iff in Hw as [Hs Hd].
      apply Qgtb_true in Hs, Hd. simpl in Hd.
      split; [apply list_elem_of_here|]. auto 10.
    + destruct (it_pressed it && _) eqn:Hk.
      * injection H as <- <-. exists it, scores.
        apply andb_true_iff in Hk as [Hpr Hd].
        apply Qgtb_true in Hd. simpl in Hd.
        apply andb_false_iff in Hw as [Hs|Hd'].
        -- apply Qgtb_false in Hs.
           split; [apply list_elem_of_here|]. auto 10.
        -- apply Qgtb_false in Hd'. simpl in Hd'. lra.
      * apply IH in H as (it' & scores' & Hin & Hp' & Hlast & Hd & Hkind).
        exists it', scores'.
        split; [apply list_elem_of_further; exact Hin|]. auto.
Qed.

Lemma listen_for_wake_sound th e ep st k st' :
  USE_PUSH_TO_TALK (cfg e) = false ->
  listen_for_wake th e ep st = (Ret k, st') ->
  openwakeword e = true
  /\ exists it scores,
       it ∈ ep_iters ep
       /\ it_predict it = Ok scores
       /\ LAST_TRIGGER st' = it_now it
       /\ (1 < it_now it - LAST_TRIGGER st)%Q
       /\ ((k = "wakeword"%string
            /\ (th < default 0%Q (scores !! WAKEWORD (cfg e)))%Q)
           \/ (k = "push_to_talk"%string
               /\ it_pressed it = true
               /\ (default 0%Q (scores !! WAKEWORD (cfg e)) <= th)%Q)).
Proof.
  intros Hmode H. unfold listen_for_wake in H. rewrite Hmode in H.
  destruct (openwakeword e); [|discriminate]. split; [reflexivity|].
  simpl in H. destruct (ep_model ep) as [[]|x]; [|discriminate].
  unfold AudioIO.microphone_stream in H.
  destruct (ep_mic ep) as [[]|x]; [|discriminate].
  destruct (ep_start ep) as [[]|x]; [|discriminate].
  destruct (wake_loop th (cfg e) (ep_iters ep) _) as [o1 st1] eqn:Hloop.
  destruct o1 as [k1|x|]; simpl in H; try discriminate.
  injection H as <- <-.
  apply wake_loop_sound in Hloop
    as (it & scores & Hin & Hp & Hlast & Hd & Hkind).
  exists it, scores. simpl in Hd. auto 10.
Qed.

(** X1.  Every trigger that [listen_for_wake] returns in wake-word mode
    was earned: some chunk of the episode was read more than a second
    after the last trigger, the new stamp is the time of that chunk,
    and either the result is ["wakeword"] and the chunk scored above
    the threshold, or it is ["push_to_talk"], the key was down and the
    score was not above the threshold.  No other value is returned. *)
Theorem trigger_is_earned (th : Q) (e : env) (ep : episode)
    (st st' : state) (k : string) :
  USE_PUSH_TO_TALK (cfg e) = false ->
  listen_for_wake th e ep st = (Ret k, st') ->
  exists it scores,
    it ∈ ep_iters ep
    /\ it_predict it = Ok scores
    /\ LAST_TRIGGER st' = it_now it
    /\ (1 < it_now it - LAST_TRIGGER st)%Q
    /\ ((k = "wakeword"%string
         /\ (th < default 0%Q (scores !! WAKEWORD (cfg e)))%Q)
        \/ (k = "push_to_talk"%string
            /\ it_pressed it = true
            /\ (default 0%Q (scores !! WAKEWORD (cfg e)) <= th)%Q)).
Proof.
  intros Hmode H.
  exact (proj2 (listen_for_wake_sound th e ep st k st' Hmode H)).
Qed.

Lemma trigger_is_earned_witness :
  exists it scores,
    it ∈ ep_iters (Samples.hearing [Samples.chunk (1 # 2) 10 false;
                                    Samples.chunk (1 # 2) 11 true])
    /\ it_predict it = Ok scores
    /\ LAST_TRIGGER
         (snd (listen_for_wake default_threshold Samples.wake_env
                 (Samples.hearing [Samples.chunk (1 # 2) 10 false;
                                   Samples.chunk (1 # 2) 11 true])
                 initial_state))
       = it_now it
    /\ (1 < it_now it - LAST_TRIGGER initial_state)%Q
    /\ (("push_to_talk"%string = "wakeword"%string
         /\ (default_threshold
             < default 0%Q (scores !! WAKEWORD (cfg Samples.wake_env)))%Q)
        \/ ("push_to_talk"%string = "push_to_talk"%string
            /\ it_pressed it = true
            /\ (default 0%Q (scores !! WAKEWORD (cfg Samples.wake_env))
                <= default_threshold)%Q)).
Proof.
  apply (trigger_is_earned default_threshold Samples.wake_env
           (Samples.hearing [Samples.chunk (1 # 2) 10 false;
                             Samples.chunk (1 # 2) 11 true])
           initial_state).
  - reflexivity.
  - reflexivity.
Defined.

(** X2.  Inside the debounce window nothing fires: in wake-word mode,
    if every chunk of the episode is read within one second of the
    last trigger, [listen_for_wake] returns no trigger, whatever the
    scores and the key, and [_LAST_TRIGGER] keeps its value. *)
Theorem no_trigger_inside_window (th : Q) (e : env) (ep : episode)
    (st : state) :
  USE_PUSH_TO_TALK (cfg e) = false ->
  Forall (fun it => (it_now it - LAST_TRIGGER st <= 1)%Q) (ep_iters ep) ->
  (forall k, fst (listen_for_wake th e ep st) <> Ret k)
  /\ LAST_TRIGGER (snd (listen_for_wake th e ep st)) = LAST_TRIGGER st.
Proof.
  intros Hmode Hall.
  assert (Hno : forall k, fst (listen_for_wake th e ep st) <> Ret k).
  { intros k Hk.
    destruct (listen_for_wake th e ep st) as [o st'] eqn:Hl.
    simpl in Hk. subst o.
    apply (listen_for_wake_sound th e ep st k st' Hmode) in Hl
      as (_ & it & scores & Hin & _ & _ & Hd & _).
    rewrite Forall_forall in Hall. apply Hall in Hin. lra. }
  split; [exact Hno|].
  destruct (listen_for_wake th e ep st) as [o st'] eqn:Hl.
  pose proof (listen_for_wake_stamp th e ep st o st' Hmode Hl) as Hs.
  destruct o as [k|x|]; simpl; try exact Hs.
  exfalso. exact (Hno k eq_refl).
Qed.

Lemma no_trigger_inside_window_witness :
  (forall k,
      fst (listen_for_wake default_threshold Samples.wake_env
             (Samples.hearing [Samples.chunk 1 (1 # 2) true;
                               Samples.chunk 1 1 true])
             initial_state) <> Ret k)
  /\ LAST_TRIGGER
       (snd (listen_for_wake default_threshold Samples.wake_env
               (Samples.hearing [Samples.chunk 1 (1 # 2) true;
                                 Samples.chunk 1 1 true])
               initial_state))
     = LAST_TRIGGER initial_state.
Proof.
  apply (no_trigger_inside_window default_threshold Samples.wake_env
           (Samples.hearing [Samples.chunk 1 (1 # 2) true;
                             Samples.chunk 1 1 true])
           initial_state).
  - reflexivity.
  - repeat constructor; discriminate.
Defined.

(** X3.  A prediction that does not mention the configured wake word
    counts as score 0.0: with a threshold that is not negative, an
    episode whose predictions all lack the wake word never returns
    ["wakeword"]. *)
Theorem missing_score_never_wakes (th : Q) (e : env) (ep : episode)
    (st : state) :
  USE_PUSH_TO_TALK (cfg e) = false ->
  (0 <= th)%Q ->
  Forall (fun it =>
            forall scores,
              it_predict it = Ok scores ->
              scores !! WAKEWORD (cfg e) = None) (ep_iters ep) ->
  fst (listen_for_wake th e ep st) <> Ret "wakeword"%string.
Proof.
  intros Hmode Hth Hall Hk.
  destruct (listen_for_wake th e ep st) as [o st'] eqn:Hl.
  simpl in Hk. subst o.
  apply (listen_for_wake_sound th e ep st _ st' Hmode) in Hl
    as (_ & it & scores & Hin & Hp & _ & _ & Hkind).
  rewrite Forall_forall in Hall.
  rewrite (Hall it Hin scores Hp) in Hkind. simpl in Hkind.
  destruct Hkind as [[_ Hlt]|[Hne _]]; [lra | discriminate].
Qed.

Lemma missing_score_never_wakes_witness :
  fst (listen_for_wake default_threshold Samples.wake_env
         (Samples.hearing
            [{| it_predict := Ok {[ "alexa"%string := 1%Q ]};
                it_now := 10; it_pressed := false |}])
         initial_state) <> Ret "wakeword"%string.
Proof.
  apply (missing_score_never_wakes default_threshold Samples.wake_env
           (Samples.hearing
              [{| it_predict := Ok {[ "alexa"%string := 1%Q ]};
                  it_now := 10; it_pressed := false |}])
           initial_state).
  - reflexivity.
  - discriminate.
  - repeat constructor. intros scores H. injection H as <-. reflexivity.
Defined.

(** ** The turn controller, continued *)

(** X4.  Every iteration that starts while the loop is running adds to
    the trace one entry into [listen_for_wake] and then the events of
    its turn, among which there is no log record of an exception and no
    call of [tts.speak] other than the one that speaks the turn's
    response.  After them the handler adds one log record directly
    followed by one call of [tts.speak] with the apology exactly when
    the turn raised an [Exception], and nothing when the turn returned.
    The loop is still running afterwards unless the turn is still
    waiting, or raised outside [Exception], or the apology did. *)
Theorem loop_trace_by_iteration (e : env) (turns : list turn) (t : turn)
    (st : state) :
  fst (run e turns st) = Running ->
  let s := snd (run e turns st) in
  let r := run_once e t s in
  exists body,
    trace (snd r) = trace s ++ ListenForWake :: body
    /\ Forall (fun ev => in_turn ev = true) body
    /\ (forall text, Speak text ∈ body -> t_command t = Ok text)
    /\ trace (snd (run e (turns ++ [t]) st))
       = trace (snd r) ++ handler_trace (fst r)
    /\ (fst (run e (turns ++ [t]) st) = Running
        <-> match fst r with
            | Ret _ => True
            | Raise exc => catchable exc = true /\ apology_contained t = true
            | Blocked => False
            end).
Proof.
  intros Hrun s r. subst r.
  destruct (run_once_body e t s) as (body & Hbody & Hin & _ & Hspeak).
  exists body. split; [exact Hbody|]. split; [exact Hin|].
  split; [exact Hspeak|].
  rewrite run_app. subst s.
  destruct (run e turns st) as [status s]. simpl in Hrun. subst status.
  simpl. clear Hbody Hin Hspeak.
  destruct (run_once e t s) as [[u|exc|] s1]; simpl.
  - rewrite app_nil_r. split; [reflexivity|]. split; auto.
  - destruct (catchable exc) eqn:Hc.
    + unfold call, apology_contained.
      destruct (t_apology t) as [u|e2]; simpl.
      * rewrite <- app_assoc. split; [reflexivity|]. split; auto.
      * destruct (catchable e2) eqn:Hc2; simpl.
        -- rewrite <- app_assoc. split; [reflexivity|]. split; auto.
        -- rewrite <- app_assoc. split; [reflexivity|].
           split; [discriminate|]. intros [_ H]. discriminate.
    + simpl. rewrite app_nil_r. split; [reflexivity|].
      split; [discriminate|]. intros [H _]. discriminate.
  - rewrite app_nil_r. split; [reflexivity|]. split; [discriminate|tauto].
Qed.

Lemma loop_trace_by_iteration_witness :
  let t1 := Samples.turn_at 10 (Ok "/tmp/a.wav"%string) (Ok "hello"%string)
              (Err Samples.no_tts) (Ok tt) (Ok tt) in
  let t2 := Samples.turn_at 20 (Ok "/tmp/b.wav"%string) (Ok "bye"%string)
              (Ok "goodbye"%string) (Ok tt) (Ok tt) in
  let s := snd (run Samples.ptt_env [t2] initial_state) in
  let r := run_once Samples.ptt_env t1 s in
  exists body,
    trace (snd r) = trace s ++ ListenForWake :: body
    /\ Forall (fun ev => in_turn ev = true) body
    /\ (forall text, Speak text ∈ body -> t_command t1 = Ok text)
    /\ trace (snd (run Samples.ptt_env ([t2] ++ [t1]) initial_state))
       = trace (snd r) ++ handler_trace (fst r)
    /\ (fst (run Samples.ptt_env ([t2] ++ [t1]) initial_state) = Running
        <-> match fst r with
            | Ret _ => True
            | Raise exc => catchable exc = true /\ apology_contained t1 = true
            | Blocked => False
            end).
Proof.
  intros t1 t2.
  apply (loop_trace_by_iteration Samples.ptt_env [t2] t1 initial_state).
  reflexivity.
Defined.

(** In push-to-talk mode the loop never touches the microphone. *)
Lemma run_ptt_no_microphone e turns st :
  USE_PUSH_TO_TALK (cfg e) = true ->
  exists new,
    trace (snd (run e turns st)) = trace st ++ new
    /\ Forall (fun ev => uses_microphone ev = false) new.
Proof.
  intros Hmode. revert st. induction turns as [|t rest IH]; intros st.
  - exists []. simpl. rewrite app_nil_r. split; [reflexivity | constructor].
  - destruct (run_once_body e t st) as (body & Hbody & _ & Hmic & _).
    specialize (Hmic Hmode). simpl.
    destruct (run_once e t st) as [[u|exc|] s1]; simpl in Hbody.
    + destruct (IH s1) as (new & Htr & Hnew).
      exists ((ListenForWake :: body) ++ new). split.
      * rewrite Htr, Hbody, <- app_assoc. reflexivity.
      * apply Forall_app. split; [constructor; [reflexivity | exact Hmic]
                                 | exact Hnew].
    + destruct (catchable exc).
      * assert (Hs2 : trace (log (Speak apology) (log (LogException exc) s1))
                      = trace st ++ (ListenForWake :: body)
                          ++ [LogException exc; Speak apology]).
        { simpl. rewrite Hbody, <- !app_assoc. reflexivity. }
        assert (Hok : Forall (fun ev => uses_microphone ev = false)
                        ((ListenForWake :: body)
                           ++ [LogException exc; Speak apology])).
        { apply Forall_app. split; [constructor; [reflexivity | exact Hmic]|].
          repeat constructor. }
        unfold call. destruct (t_apology t) as [u|e2].
        -- destruct (IH (log (Speak apology) (log (LogException exc) s1)))
             as (new & Htr & Hnew).
           exists (((ListenForWake :: body)
                      ++ [LogException exc; Speak apology]) ++ new).
           split; [rewrite Htr, Hs2, <- !app_assoc; reflexivity|].
           apply Forall_app. split; assumption.
        -- destruct (catchable e2).
           ++ destruct (IH (log (Speak apology) (log (LogException exc) s1)))
                as (new & Htr & Hnew).
              exists (((ListenForWake :: body)
                         ++ [LogException exc; Speak apology]) ++ new).
              split; [rewrite Htr, Hs2, <- !app_assoc; reflexivity|].
              apply Forall_app. split; assumption.
           ++ exists ((ListenForWake :: body)
                        ++ [LogException exc; Speak apology]).
              split; [exact Hs2 | exact Hok].
      * exists (ListenForWake :: body). split; [exact Hbody|].
        constructor; [reflexivity | exact Hmic].
    + exists (ListenForWake :: body). split; [exact Hbody|].
      constructor; [reflexivity | exact Hmic].
Qed.

(** X5.  Started with [--no-wake], the assistant never uses the
    microphone stream or the wake-word model, whatever the environment
    file says and whether or not [openwakeword] is installed: no
    iteration of the loop opens, reads or closes a stream or polls the
    key, and [listen_for_wake] raises nothing but what
    [keyboard.wait] raises -- not the [RuntimeError] of a missing
    detector, and no error of the model or the audio device. *)
Theorem no_wake_never_uses_microphone (a : Main.args) (e : env)
    (turns : list turn) (st : state) :
  Main.no_wake a = true ->
  (exists new,
      trace (snd (Main.main a e turns st)) = trace st ++ new
      /\ Forall (fun ev => uses_microphone ev = false) new)
  /\ (forall th ep st0 x,
        fst (listen_for_wake th (Main.configure a e) ep st0) = Raise x ->
        ep_wait ep = Some (Err x))
  /\ (forall th ep st0 t,
        ep_wait ep = Some (Ok t) ->
        listen_for_wake th (Main.configure a e) ep st0
        = (Ret "push_to_talk"%string, set_LAST_TRIGGER t (log KeyWait st0))).
Proof.
  intros Hflag.
  assert (Hmode : USE_PUSH_TO_TALK (cfg (Main.configure a e)) = true).
  { unfold Main.configure. rewrite Hflag. reflexivity. }
  split; [|split].
  - unfold Main.main. apply run_ptt_no_microphone. exact Hmode.
  - intros th ep st0 x. unfold listen_for_wake. rewrite Hmode.
    destruct (ep_wait ep) as [[t|y]|]; simpl; try discriminate.
    intros H. injection H as ->. reflexivity.
  - intros th ep st0 t Hwait. unfold listen_for_wake.
    rewrite Hmode, Hwait. reflexivity.
Qed.

Lemma no_wake_never_uses_microphone_witness :
  (exists new,
      trace (snd (Main.main
                    {| Main.no_wake := true; Main.stt_model := "medium.en";
                       Main.quiet := false |}
                    Samples.deaf_env
                    [Samples.turn_at 10 (Ok "/tmp/a.wav"%string)
                       (Ok "hello"%string) (Ok "hi there"%string)
                       (Ok tt) (Ok tt)]
                    initial_state))
      = trace initial_state ++ new
      /\ Forall (fun ev => uses_microphone ev = false) new)
  /\ (forall th ep st0 x,
        fst (listen_for_wake th
               (Main.configure
                  {| Main.no_wake := true; Main.stt_model := "medium.en";
                     Main.quiet := false |}
                  Samples.deaf_env) ep st0) = Raise x ->
        ep_wait ep = Some (Err x))
  /\ (forall th ep st0 t,
        ep_wait ep = Some (Ok t) ->
        listen_for_wake th
          (Main.configure
             {| Main.no_wake := true; Main.stt_model := "medium.en";
                Main.quiet := false |}
             Samples.deaf_env) ep st0
        = (Ret "push_to_talk"%string, set_LAST_TRIGGER t (log KeyWait st0))).
Proof.
  apply (no_wake_never_uses_microphone
           {| Main.no_wake := true; Main.stt_model := "medium.en";
              Main.quiet := false |}
           Samples.deaf_env
           [Samples.turn_at 10 (Ok "/tmp/a.wav"%string)
              (Ok "hello"%string) (Ok "hi there"%string) (Ok tt) (Ok tt)]
           initial_state).
  reflexivity.
Defined.

(** A key name that [keyboard] does not know: [keyboard.wait] raises
    [ValueError] in every turn, and the loop logs it, apologises and
    goes on. *)
Example test_unknown_key :
  let t := {| t_episode := Samples.no_keyboard;
              t_record := Ok "/tmp/a.wav"%string;
              t_transcribe := Ok "hello"%string;
              t_command := Ok "hi there"%string;
              t_speak := Ok tt;
              t_apology := Ok tt |} in
  fst (listen_for_wake default_threshold Samples.ptt_env Samples.no_keyboard
         initial_state) = Raise Samples.unknown_key
  /\ fst (run Samples.ptt_env [t; t] initial_state) = Running
  /\ trace (snd (run Samples.ptt_env [t; t] initial_state))
     = [ListenForWake; KeyWait; LogException Samples.unknown_key;
        Speak apology;
        ListenForWake; KeyWait; LogException Samples.unknown_key;
        Speak apology].
Proof.
  repeat split.
Qed.

(** X6.  The last-turn state after the loop is that of the latest
    successful turn, whatever happened before: when the loop is still
    running after some turns, and in the next one the trigger fires
    and capture, transcription, routing and synthesis all succeed, the
    loop keeps running and the state holds that turn's transcript and
    response. *)
Theorem last_turn_is_latest_success (e : env) (turns : list turn)
    (t : turn) (st : state) (k wav text response : string) :
  fst (run e turns st) = Running ->
  fst (listen_for_wake default_threshold e (t_episode t)
         (log ListenForWake (snd (run e turns st)))) = Ret k ->
  t_record t = Ok wav ->
  t_transcribe t = Ok text ->
  t_command t = Ok response ->
  t_speak t = Ok tt ->
  fst (run e (turns ++ [t]) st) = Running
  /\ last_turn (snd (run e (turns ++ [t]) st)) = (Some text, Some response).
Proof.
  intros Hrun Hlisten Hrec Htrans Hcmd Hspeak.
  rewrite run_app.
  destruct (run e turns st) as [status s] eqn:Hr. simpl in Hrun, Hlisten.
  subst status. simpl.
  rewrite run_once_steps.
  destruct (listen_for_wake default_threshold e (t_episode t)
              (log ListenForWake s)) as [o s1].
  simpl in Hlisten. subst o.
  rewrite Hrec, Htrans, Hcmd, Hspeak. simpl. split; reflexivity.
Qed.

Lemma last_turn_is_latest_success_witness :
  fst (run Samples.ptt_env
         ([Samples.turn_at 10 (Ok "/tmp/a.wav"%string) (Ok "hello"%string)
             (Err Samples.no_tts) (Ok tt) (Ok tt)]
            ++ [Samples.turn_at 20 (Ok "/tmp/b.wav"%string) (Ok "bye"%string)
                  (Ok "goodbye"%string) (Ok tt) (Ok tt)])
         initial_state) = Running
  /\ last_turn
       (snd (run Samples.ptt_env
               ([Samples.turn_at 10 (Ok "/tmp/a.wav"%string)
                   (Ok "hello"%string) (Err Samples.no_tts) (Ok tt) (Ok tt)]
                  ++ [Samples.turn_at 20 (Ok "/tmp/b.wav"%string)
                        (Ok "bye"%string) (Ok "goodbye"%string)
                        (Ok tt) (Ok tt)])
               initial_state))
     = (Some "bye"%string, Some "goodbye"%string).
Proof.
  apply (last_turn_is_latest_success Samples.ptt_env
           [Samples.turn_at 10 (Ok "/tmp/a.wav"%string) (Ok "hello"%string)
              (Err Samples.no_tts) (Ok tt) (Ok tt)]
           (Samples.turn_at 20 (Ok "/tmp/b.wav"%string) (Ok "bye"%string)
              (Ok "goodbye"%string) (Ok tt) (Ok tt))
           initial_state "push_to_talk" "/tmp/b.wav").
  - reflexivity.
  - reflexivity.
  - reflexivity.
  - reflexivity.
  - reflexivity.
  - reflexivity.
Defined.

(** ** Capture and playback, continued *)

Lemma int16_bytes_range (z : Z) : Forall (fun b => 0 <= b < 256) (int16_bytes z).
Proof.
  unfold int16_bytes.
  pose proof (Z.mod_pos_bound z 65536 ltac:(lia)) as Hu.
  repeat constructor.
  - apply Z.mod_pos_bound. lia.
  - apply Z.mod_pos_bound. lia.
  - apply Z.div_pos; lia.
  - apply Z.div_lt_upper_bound; lia.
Qed.

Lemma frombuffer_tobytes_in_range (samples : list Z) :
  Forall (fun z => -32768 <= z < 32768) samples ->
  frombuffer_int16 (tobytes samples) = Some samples.
Proof.
  intros Hrange. rewrite frombuffer_tobytes. f_equal.
  induction Hrange as [|z rest Hz _ IH]; simpl; [reflexivity|].
  rewrite IH, (wrap16_small z Hz). reflexivity.
Qed.

(** X7.  Two bytes per sample, little-endian, and back: for samples
    within the 16-bit range, [np.frombuffer(..., dtype=np.int16)]
    applied to the bytes that [tobytes()] wrote returns the samples
    unchanged; the buffer has two bytes per sample, each within
    0..255. *)
Theorem int16_bytes_roundtrip (samples : list Z) :
  Forall (fun z => -32768 <= z < 32768) samples ->
  frombuffer_int16 (tobytes samples) = Some samples
  /\ length (tobytes samples) = (2 * length samples)%nat
  /\ Forall (fun b => 0 <= b < 256) (tobytes samples).
Proof.
  intros Hrange. split; [|split].
  - apply frombuffer_tobytes_in_range. exact Hrange.
  - apply length_tobytes.
  - clear Hrange. induction samples as [|z rest IH]; [constructor|].
    change (tobytes (z :: rest)) with (int16_bytes z ++ tobytes rest).
    apply Forall_app. split; [apply int16_bytes_range | exact IH].
Qed.

Lemma int16_bytes_roundtrip_witness :
  frombuffer_int16 (tobytes [0; -1; 32767; -32768; 258])
  = Some [0; -1; 32767; -32768; 258]
  /\ length (tobytes [0; -1; 32767; -32768; 258])
     = (2 * length [0; -1; 32767; -32768; 258]%Z)%nat
  /\ Forall (fun b => 0 <= b < 256) (tobytes [0; -1; 32767; -32768; 258]).
Proof.
  apply (int16_bytes_roundtrip [0; -1; 32767; -32768; 258]).
  repeat constructor; lia.
Defined.

(** Decoding fails exactly on a buffer of odd size. *)
Lemma frombuffer_int16_parity (data : list Z) :
  (frombuffer_int16 data = None <-> Nat.odd (length data) = true)
  /\ (forall l, frombuffer_int16 data = Some l ->
                length data = (2 * length l)%nat).
Proof.
  assert (H : forall d : list Z,
             ((frombuffer_int16 d = None <-> Nat.odd (length d) = true)
              /\ (forall l, frombuffer_int16 d = Some l ->
                            length d = (2 * length l)%nat))
             /\ forall x,
                 ((frombuffer_int16 (x :: d) = None
                   <-> Nat.odd (length (x :: d)) = true)
                  /\ (forall l, frombuffer_int16 (x :: d) = Some l ->
                                length (x :: d) = (2 * length l)%nat))).
  { induction d as [|y d IH].
    - split; [split|intros x; split].
      + simpl. split; discriminate.
      + intros l Hl. injection Hl as <-. reflexivity.
      + simpl. split; reflexivity.
      + intros l Hl. discriminate.
    - destruct IH as [[Hnone Hsome] Hnext]. split; [apply Hnext|].
      intros x. split.
      + change (frombuffer_int16 (x :: y :: d))
          with (match frombuffer_int16 d with
                | Some l => Some (wrap16 (x + 256 * y) :: l)
                | None => None
                end).
        change (Nat.odd (length (x :: y :: d))) with (Nat.odd (length d)).
        rewrite <- Hnone. destruct (frombuffer_int16 d); split; congruence.
      + intros l Hl.
        change (frombuffer_int16 (x :: y :: d))
          with (match frombuffer_int16 d with
                | Some l => Some (wrap16 (x + 256 * y) :: l)
                | None => None
                end) in Hl.
        destruct (frombuffer_int16 d) as [l'|]; [|discriminate].
        injection Hl as <-. simpl. rewrite (Hsome l' eq_refl). lia. }
  apply H.
Qed.

(** X8.  [play_wav] decodes every file as a flat stream of 16-bit
    samples, whatever the header says about sample width and channels:
    for a container whose data chunk holds whole frames, it raises
    [ValueError] when the chunk has an odd number of bytes, and
    otherwise hands [sd.play] half as many samples as the chunk has
    bytes, at the file's frame rate. *)
Theorem play_wav_reads_int16_pairs (dev : result unit) (path : string)
    (a : audio) (wf : wav_file) (frames : Z) :
  files a !! path = Some (Some wf) ->
  1 <= nchannels wf ->
  1 <= sampwidth wf ->
  Z.of_nat (length (frames_data wf))
  = frames * (nchannels wf * sampwidth wf) ->
  if Nat.odd (length (frames_data wf))
  then play_wav dev path a
       = (Raise (ValueError "buffer size must be a multiple of element size"),
          a)
  else exists samples,
      frombuffer_int16 (frames_data wf) = Some samples
      /\ length (frames_data wf) = (2 * length samples)%nat
      /\ play_wav dev path a
         = (match dev with Ok _ => Ret tt | Err e => Raise e end,
            {| files := files a;
               played := played a ++ [(samples, framerate wf)] |}).
Proof.
  intros Hfile Hch Hsw Hlen.
  assert (Hall : readframes wf (getnframes wf) = frames_data wf).
  { unfold readframes, getnframes. rewrite Hlen, Z.div_mul by lia.
    apply take_ge. lia. }
  destruct (frombuffer_int16_parity (frames_data wf)) as [Hnone Hsome].
  unfold play_wav. rewrite Hfile.
  destruct (nchannels wf <? 1) eqn:Hc; [apply Z.ltb_lt in Hc; lia|].
  destruct (sampwidth wf <? 1) eqn:Hs; [apply Z.ltb_lt in Hs; lia|].
  simpl. rewrite Hall.
  destruct (Nat.odd (length (frames_data wf))) eqn:Hodd.
  - rewrite (proj2 Hnone eq_refl). reflexivity.
  - destruct (frombuffer_int16 (frames_data wf)) as [samples|] eqn:Hdec.
    + exists samples. split; [reflexivity|].
      split; [apply Hsome; reflexivity|].
      destruct dev; reflexivity.
    + discriminate (proj1 Hnone eq_refl).
Qed.

Lemma play_wav_reads_int16_pairs_witness :
  let wf := {| nchannels := 1; sampwidth := 1; framerate := 8000;
               frames_data := [1; 2; 3] |} in
  let a := {| files := {[ "beep.wav"%string := Some wf ]}; played := [] |} in
  if Nat.odd (length (frames_data wf))
  then play_wav (Ok tt) "beep.wav" a
       = (Raise (ValueError "buffer size must be a multiple of element size"),
          a)
  else exists samples,
      frombuffer_int16 (frames_data wf) = Some samples
      /\ length (frames_data wf) = (2 * length samples)%nat
      /\ play_wav (Ok tt) "beep.wav" a
         = (Ret tt,
            {| files := files a;
               played := played a ++ [(samples, framerate wf)] |}).
Proof.
  apply (play_wav_reads_int16_pairs (Ok tt) "beep.wav"
           {| files := {[ "beep.wav"%string :=
                            Some {| nchannels := 1; sampwidth := 1;
                                    framerate := 8000;
                                    frames_data := [1; 2; 3] |} ]};
              played := [] |}
           {| nchannels := 1; sampwidth := 1; framerate := 8000;
              frames_data := [1; 2; 3] |} 3).
  - reflexivity.
  - simpl. lia.
  - simpl. lia.
  - reflexivity.
Defined.



(** X10.  Whatever the amplitude and the platform, the sample written
    is a 16-bit integer.  Silence is written as 0 and the full-scale
    amplitudes 1.0 and -1.0 as 32767 and -32767.  The product is
    rounded to single precision before its fraction is dropped:
    amplitude 32769/65536, whose exact product with 32767 lies below
    16384, is written as 16384. *)
Theorem to_int16_in_range (cast : spec_float -> Z) (x : spec_float) :
  -32768 <= to_int16 cast x <= 32767
  /\ to_int16 cast (S754_zero false) = 0
  /\ to_int16 cast (S754_finite false 8388608 (-23)) = 32767
  /\ to_int16 cast (S754_finite true 8388608 (-23)) = -32767
  /\ (float_value (S754_finite false 8388864 (-24)) * 32767 < 16384)%Q
  /\ to_int16 cast (S754_finite false 8388864 (-24)) = 16384.
Proof.
  pose proof (to_int16_range cast x) as Hr.
  split; [lia|]. repeat split.
Qed.

(** ** Tool calls and the chat backend, continued *)

Module NetFacts.

(** The requests sent, in order. *)
Fixpoint requests (l : list net_event) : list request :=
  match l with
  | [] => []
  | Http r :: rest => r :: requests rest
  | ToolCall _ :: rest => requests rest
  end.

(** A computation that hands nothing to the tool handler and sends at
    most [n] requests. *)
Definition within {A} (n : nat) (m : N A) : Prop :=
  forall tr, exists new,
    snd (m tr) = tr ++ new
    /\ tool_calls new = []
    /\ (length (requests new) <= n)%nat.

(** The token is missing or empty. *)
Definition no_token (c : config) : Prop :=
  SCRYPTED_TOKEN c = None \/ SCRYPTED_TOKEN c = Some ""%string.

Definition token_error : exn :=
  RuntimeError "SCRYPTED_TOKEN is not configured".

(** [resp.raise_for_status()] raises for this status. *)
Definition error_status (status : Z) : bool :=
  (400 <=? status) && (status <? 600).

End NetFacts.
Import NetFacts.

Lemma requests_app (l1 l2 : list net_event) :
  requests (l1 ++ l2) = requests l1 ++ requests l2.
Proof.
  induction l1 as [|[r|b] l1 IH]; simpl; [reflexivity | | exact IH].
  rewrite IH. reflexivity.
Qed.

Lemma within_weaken {A} (n n' : nat) (m : N A) :
  (n <= n')%nat -> within n m -> within n' m.
Proof.
  intros Hle Hm tr. destruct (Hm tr) as (new & Htr & Hq & Hlen).
  exists new. split; [exact Htr|]. split; [exact Hq | lia].
Qed.

Lemma within_ret {A} (a : A) : within 0 (mret a).
Proof.
  intros tr. exists []. rewrite app_nil_r. repeat split. simpl. lia.
Qed.

Lemma within_lift {A} (r : result A) : within 0 (lift r).
Proof.
  intros tr. exists []. rewrite app_nil_r. repeat split. simpl. lia.
Qed.

Lemma within_http net r : within 1 (http net r).
Proof.
  intros tr. exists [Http r]. repeat split. simpl. lia.
Qed.

Lemma within_bind {A B} (n1 n2 : nat) (m : N A) (f : A -> N B) :
  within n1 m -> (forall a, within n2 (f a)) -> within (n1 + n2) (m ≫= f).
Proof.
  intros Hm Hf tr. unfold mbind, N_bind.
  destruct (Hm tr) as (new1 & Htr1 & Hq1 & Hl1).
  destruct (m tr) as [[a|e] tr1]; simpl in Htr1; subst tr1.
  - destruct (Hf a (tr ++ new1)) as (new2 & Htr2 & Hq2 & Hl2).
    exists (new1 ++ new2).
    rewrite Htr2, app_assoc, tool_calls_app, requests_app, length_app, Hq1, Hq2.
    split; [reflexivity|]. split; [reflexivity | lia].
  - exists new1. split; [reflexivity|]. split; [exact Hq1 | lia].
Qed.

Lemma within_raise_for_status resp : within 0 (raise_for_status resp).
Proof.
  unfold raise_for_status.
  destruct (_ && _); [apply within_lift | apply within_ret].
Qed.

Lemma within_snapshot c net device_id :
  within 1 (Scrypted.snapshot c net device_id).
Proof.
  unfold Scrypted.snapshot.
  apply (within_bind 0 1); [apply within_lift | intros _].
  apply (within_bind 1 0); [apply within_http | intros resp].
  apply (within_bind 0 0); [apply within_raise_for_status | intros _].
  apply within_ret.
Qed.

Lemma within_arm c net device_id : within 1 (Scrypted.arm c net device_id).
Proof.
  unfold Scrypted.arm.
  apply (within_bind 0 1); [apply within_lift | intros _].
  apply (within_bind 1 0); [apply within_http | intros resp].
  destruct (status_code resp =? 404); [apply within_ret|].
  apply (within_bind 0 0); [apply within_raise_for_status | intros _].
  apply within_ret.
Qed.

Lemma within_analyze_image net prompt image :
  within 1 (Vlm.analyze_image net prompt image).
Proof.
  unfold Vlm.analyze_image.
  apply (within_bind 1 0); [apply within_http | intros resp].
  apply (within_bind 0 0); [apply within_raise_for_status | intros _].
  apply (within_bind 0 0); [apply within_lift | intros j].
  apply (within_bind 0 0); [apply within_lift | intros message].
  apply within_lift.
Qed.

Lemma within_handle_tool c net block :
  within 2 (Intents.handle_tool c net block).
Proof.
  unfold Intents.handle_tool.
  destruct (eq_str _ "scrypted.snapshot").
  { apply (within_bind 0 2); [apply within_lift | intros device_id].
    destruct (negb (truthy device_id));
      [apply (within_weaken 0); [lia | apply within_ret]|].
    apply (within_bind 1 1); [apply within_snapshot | intros image].
    apply (within_bind 0 1); [apply within_lift | intros prompt].
    apply within_analyze_image. }
  destruct (eq_str _ "scrypted.arm").
  { apply (within_bind 0 2); [apply within_lift | intros device_id].
    destruct (negb (truthy device_id));
      [apply (within_weaken 0); [lia | apply within_ret]|].
    apply (within_weaken 1); [lia|].
    apply (within_bind 1 0); [apply within_arm | intros ok].
    apply within_ret. }
  apply (within_weaken 0); [lia | apply within_ret].
Qed.

(** X11.  One call of [chat] sends the generate request first and then
    at most two more requests, and hands at most one block to the tool
    handler: a tool result is never fed back to the model, and a tool
    never triggers another tool. *)
Theorem chat_request_budget (json_loads : string -> result value)
    (c : config) (net : network) (prompt : string) (system : option string)
    (tr : list net_event) :
  exists new,
    snd (chat json_loads c net prompt system tr)
    = tr ++ Http (OllamaGenerate (payload prompt system)) :: new
    /\ (length (tool_calls new) <= 1)%nat
    /\ (length (requests new) <= 2)%nat.
Proof.
  unfold chat, mbind, N_bind, http, raise_for_status, lift. simpl.
  assert (Hnone : exists new : list net_event,
             tr ++ [Http (OllamaGenerate (payload prompt system))]
             = tr ++ Http (OllamaGenerate (payload prompt system)) :: new
             /\ (length (tool_calls new) <= 1)%nat
             /\ (length (requests new) <= 2)%nat).
  { exists []. simpl. split; [reflexivity | lia]. }
  destruct (net (OllamaGenerate (payload prompt system))) as [resp|e];
    [|exact Hnone].
  destruct (_ && _); simpl; [exact Hnone|].
  destruct (body resp) as [j|e]; [|exact Hnone].
  destruct (get j "response" (Str "")) as [text|e]; [|exact Hnone].
  destruct text as [| | | |s| |]; try exact Hnone.
  destruct (json_loads s) as [[| | | | | |block]|x]; try exact Hnone.
  2: { destruct (is_JSONDecodeError x); exact Hnone. }
  destruct (block !! "tool"); [|exact Hnone].
  unfold _route_tool.
  destruct (within_handle_tool c net block
              ((tr ++ [Http (OllamaGenerate (payload prompt system))])
                 ++ [ToolCall block])) as (new & Htr & Hq & Hlen).
  exists (ToolCall block :: new). rewrite Htr. simpl. rewrite Hq.
  split; [rewrite <- !app_assoc; reflexivity|]. simpl. lia.
Qed.

Lemma headers_no_token c : no_token c -> Scrypted._headers c = Err token_error.
Proof.
  unfold Scrypted._headers. intros [H|H]; rewrite H; reflexivity.
Qed.

(** X12.  Without a Scrypted token nothing is sent to Scrypted: with
    [SCRYPTED_TOKEN] unset or empty, [snapshot] and [arm] raise
    [RuntimeError] before any request, and so does [handle_tool] for a
    snapshot or arm call that names a device. *)
Theorem no_token_no_request (c : config) (net : network)
    (tr : list net_event) :
  no_token c ->
  (forall device_id,
      Scrypted.snapshot c net device_id tr = (Err token_error, tr)
      /\ Scrypted.arm c net device_id tr = (Err token_error, tr))
  /\ (forall block args,
        recognized (default Null (block !! "tool")) = true ->
        default (Obj ∅) (block !! "args") = Obj args ->
        truthy (default Null (args !! "device_id")) = true ->
        Intents.handle_tool c net block tr = (Err token_error, tr)).
Proof.
  intros Hno. pose proof (headers_no_token c Hno) as Hh.
  assert (Hboth : forall device_id,
             Scrypted.snapshot c net device_id tr = (Err token_error, tr)
             /\ Scrypted.arm c net device_id tr = (Err token_error, tr)).
  { intros device_id.
    unfold Scrypted.snapshot, Scrypted.arm, mbind, N_bind, lift.
    rewrite Hh. split; reflexivity. }
  split; [exact Hboth|].
  intros block args Hrec Hargs Htruthy.
  unfold recognized in Hrec. unfold Intents.handle_tool. rewrite Hargs.
  destruct (eq_str _ "scrypted.snapshot").
  - unfold mbind at 1. unfold N_bind at 1. unfold lift at 1. simpl.
    rewrite Htruthy. simpl.
    unfold mbind at 1. unfold N_bind at 1.
    rewrite (proj1 (Hboth _)). reflexivity.
  - simpl in Hrec. rewrite Hrec.
    unfold mbind at 1. unfold N_bind at 1. unfold lift at 1. simpl.
    rewrite Htruthy. simpl.
    unfold mbind at 1. unfold N_bind at 1.
    rewrite (proj2 (Hboth _)). reflexivity.
Qed.

Lemma no_token_no_request_witness :
  let c := {| SCRYPTED_URL := Some "http://host"%string;
              SCRYPTED_TOKEN := None;
              WAKEWORD := "hey_nova"; VOICE := "en_US"; DEVICE_IDS := ∅;
              USE_PUSH_TO_TALK := false; PTT_KEY := "F9" |} in
  (forall device_id,
      Scrypted.snapshot c Samples.offline device_id [] = (Err token_error, [])
      /\ Scrypted.arm c Samples.offline device_id [] = (Err token_error, []))
  /\ (forall block args,
        recognized (default Null (block !! "tool")) = true ->
        default (Obj ∅) (block !! "args") = Obj args ->
        truthy (default Null (args !! "device_id")) = true ->
        Intents.handle_tool c Samples.offline block []
        = (Err token_error, [])).
Proof.
  apply (no_token_no_request
           {| SCRYPTED_URL := Some "http://host"%string;
              SCRYPTED_TOKEN := None;
              WAKEWORD := "hey_nova"; VOICE := "en_US"; DEVICE_IDS := ∅;
              USE_PUSH_TO_TALK := false; PTT_KEY := "F9" |}
           Samples.offline []).
  left. reflexivity.
Defined.

Lemma eq_str_arm_not_snapshot (tool : value) :
  eq_str tool "scrypted.arm" = true -> eq_str tool "scrypted.snapshot" = false.
Proof.
  destruct tool as [| | | |s| |]; simpl; try discriminate.
  intros H. apply String.eqb_eq in H. subst s. reflexivity.
Qed.

(** X13.  An arm call that names a device sends exactly one request,
    the arm request for that device, and its result follows the
    status: ["Unable to arm"] for 404, [HTTPError] for any other status
    from 400 to 599, ["Armed"] otherwise. *)
Theorem arm_tool_follows_status (c : config) (net : network)
    (block args : gmap string value) (device_id : value) (tok : string)
    (resp : response) (tr : list net_event) :
  eq_str (default Null (block !! "tool")) "scrypted.arm" = true ->
  default (Obj ∅) (block !! "args") = Obj args ->
  args !! "device_id" = Some device_id ->
  truthy device_id = true ->
  Scrypted._headers c = Ok tok ->
  net (ScryptedArm device_id) = Ok resp ->
  Intents.handle_tool c net block tr
  = (if status_code resp =? 404 then Ok (Str "Unable to arm")
     else if error_status (status_code resp)
          then Err (Exception "HTTPError" "status")
          else Ok (Str "Armed"),
     tr ++ [Http (ScryptedArm device_id)]).
Proof.
  intros Htool Hargs Hdev Htruthy Hh Hnet.
  unfold Intents.handle_tool.
  rewrite (eq_str_arm_not_snapshot _ Htool), Htool, Hargs.
  unfold mbind, N_bind, lift, Scrypted.arm, http, raise_for_status,
    error_status.
  simpl. rewrite Hdev. simpl. rewrite Htruthy, Hh. simpl. rewrite Hnet.
  unfold mbind, N_bind, lift, mret, N_ret. simpl.
  destruct (status_code resp =? 404); [reflexivity|].
  destruct (_ && _); reflexivity.
Qed.

Lemma arm_tool_follows_status_witness :
  Intents.handle_tool (Samples.base_config false)
    (fun _ => Ok {| status_code := 404; content := []; body := Ok Null |})
    {[ "tool"%string := Str "scrypted.arm";
       "args"%string := Obj {[ "device_id"%string := Str "cam1" ]} ]} []
  = (if 404 =? 404 then Ok (Str "Unable to arm")
     else if error_status 404
          then Err (Exception "HTTPError" "status")
          else Ok (Str "Armed"),
     [] ++ [Http (ScryptedArm (Str "cam1"))]).
Proof.
  apply (arm_tool_follows_status (Samples.base_config false)
           (fun _ => Ok {| status_code := 404; content := [];
                           body := Ok Null |})
           {[ "tool"%string := Str "scrypted.arm";
              "args"%string := Obj {[ "device_id"%string := Str "cam1" ]} ]}
           {[ "device_id"%string := Str "cam1" ]} (Str "cam1")
           "Bearer token"
           {| status_code := 404; content := []; body := Ok Null |} []).
  - reflexivity.
  - reflexivity.
  - reflexivity.
  - reflexivity.
  - reflexivity.
  - reflexivity.
Defined.

(** X14.  A backend answer whose ["response"] is not a string -- a
    number, [null], or an object that is already decoded -- makes
    [chat] raise [TypeError] after its one request: the value is
    neither returned nor handed to the tool handler. *)
Theorem chat_rejects_non_string (json_loads : string -> result value)
    (c : config) (net : network) (prompt : string) (system : option string)
    (tr : list net_event) (resp : response) (j v : value) :
  net (OllamaGenerate (payload prompt system)) = Ok resp ->
  error_status (status_code resp) = false ->
  body resp = Ok j ->
  get j "response" (Str "") = Ok v ->
  (forall s, v <> Str s) ->
  chat json_loads c net prompt system tr
  = (Err (Exception "TypeError"
            "the JSON object must be str, bytes or bytearray"),
     tr ++ [Http (OllamaGenerate (payload prompt system))]).
Proof.
  intros Hnet Hstatus Hbody Hget Hv. unfold error_status in Hstatus.
  unfold chat, mbind, N_bind, http, raise_for_status, lift. simpl.
  rewrite Hnet, Hstatus. simpl. rewrite Hbody, Hget.
  destruct v as [| | | |s| |]; try reflexivity.
  exfalso. exact (Hv s eq_refl).
Qed.

Lemma chat_rejects_non_string_witness :
  chat Samples.loads (Samples.base_config false)
    (Samples.answering
       (Obj {[ "response"%string :=
                 Obj {[ "tool"%string := Str "scrypted.arm" ]} ]}))
    "arm it" None []
  = (Err (Exception "TypeError"
            "the JSON object must be str, bytes or bytearray"),
     [] ++ [Http (OllamaGenerate (payload "arm it" None))]).
Proof.
  apply (chat_rejects_non_string Samples.loads (Samples.base_config false)
           (Samples.answering
              (Obj {[ "response"%string :=
                        Obj {[ "tool"%string := Str "scrypted.arm" ]} ]}))
           "arm it" None []
           {| status_code := 200; content := [];
              body := Ok (Obj {[ "response"%string :=
                                   Obj {[ "tool"%string :=
                                            Str "scrypted.arm" ]} ]}) |}
           (Obj {[ "response"%string :=
                     Obj {[ "tool"%string := Str "scrypted.arm" ]} ]})
           (Obj {[ "tool"%string := Str "scrypted.arm" ]})).
  - reflexivity.
  - reflexivity.
  - reflexivity.
  - reflexivity.
  - intros s. discriminate.
Defined.

(** ** Routing a command *)

Module CommandFacts.
Import PyStr.

(** The text contains a line feed. *)
Fixpoint has_newline (s : string) : bool :=
  match s with
  | EmptyString => false
  | String c rest => Ascii.eqb c newline || has_newline rest
  end.

(** [s] reads [before], [prefix], a group, [suffix], [after], where the
    group is not empty and holds no line feed. *)
Definition matches (prefix suffix s : string) : Prop :=
  exists before g after,
    s = before +:+ prefix +:+ g +:+ suffix +:+ after
    /\ g <> ""%string
    /\ has_newline g = false.

End CommandFacts.
Import PyStr Commands CommandFacts.

Lemma append_assoc (a b c : string) : (a +:+ b) +:+ c = a +:+ (b +:+ c).
Proof.
  induction a as [|x a IH]; [reflexivity|].
  change (String x ((a +:+ b) +:+ c) = String x (a +:+ (b +:+ c))).
  f_equal. exact IH.
Qed.

Lemma after_literal_Some (lit s r : string) :
  after_literal lit s = Some r <-> s = lit +:+ r.
Proof.
  revert s. induction lit as [|a lit IH]; intros s.
  - simpl. split.
    + intros H. injection H as ->. reflexivity.
    + intros ->. reflexivity.
  - destruct s as [|b s].
    + simpl. split; discriminate.
    + change (String a lit +:+ r) with (String a (lit +:+ r)). simpl.
      destruct (Ascii.eqb_spec a b) as [->|Hne].
      * rewrite IH. split.
        -- intros ->. reflexivity.
        -- intros H. injection H as ->. reflexivity.
      * split; [discriminate|]. intros H. injection H as H1 _. congruence.
Qed.

Lemma lazy_group_sound (suffix s g : string) :
  lazy_group suffix s = Some g ->
  exists after,
    s = g +:+ suffix +:+ after /\ g <> ""%string /\ has_newline g = false.
Proof.
  revert g. induction s as [|c rest IH]; intros g H; simpl in H.
  - discriminate.
  - destruct (Ascii.eqb c newline) eqn:Hc; [discriminate|].
    destruct (after_literal suffix rest) as [after|] eqn:Hlit.
    + injection H as <-. apply after_literal_Some in Hlit. exists after.
      split; [rewrite Hlit; reflexivity|]. split; [discriminate|].
      simpl. rewrite Hc. reflexivity.
    + destruct (lazy_group suffix rest) as [g'|]; [|discriminate].
      injection H as <-.
      destruct (IH g' eq_refl) as (after & Hrest & _ & Hnl).
      exists after.
      split; [rewrite Hrest at 1; reflexivity|]. split; [discriminate|].
      simpl. rewrite Hc. exact Hnl.
Qed.

Lemma lazy_group_complete (suffix g after : string) :
  g <> ""%string ->
  has_newline g = false ->
  exists g', lazy_group suffix (g +:+ suffix +:+ after) = Some g'.
Proof.
  induction g as [|c g IH]; intros Hne Hnl; [congruence|].
  simpl in Hnl. apply orb_false_iff in Hnl as [Hc Hnl].
  change (String c g +:+ suffix +:+ after)
    with (String c (g +:+ suffix +:+ after)).
  cbn [lazy_group]. rewrite Hc.
  destruct (after_literal suffix (g +:+ suffix +:+ after)) as [r|] eqn:Hlit;
    [eauto|].
  destruct g as [|d g].
  - change ("" +:+ suffix +:+ after) with (suffix +:+ after) in Hlit.
    rewrite (proj2 (after_literal_Some suffix (suffix +:+ after) after)
               eq_refl) in Hlit.
    discriminate.
  - destruct (IH ltac:(discriminate) Hnl) as [g' Hg']. rewrite Hg'. eauto.
Qed.

Lemma re_search_unfold (prefix suffix s : string) :
  re_search prefix suffix s
  = match match_here prefix suffix s with
    | Some g => Some g
    | None =>
        match s with
        | EmptyString => None
        | String _ rest => re_search prefix suffix rest
        end
    end.
Proof.
  destruct s; reflexivity.
Qed.

Lemma match_here_sound (prefix suffix s g : string) :
  match_here prefix suffix s = Some g ->
  exists after,
    s = prefix +:+ g +:+ suffix +:+ after
    /\ g <> ""%string /\ has_newline g = false.
Proof.
  unfold match_here. intros H.
  destruct (after_literal prefix s) as [rest|] eqn:Hlit; [|discriminate].
  apply after_literal_Some in Hlit.
  destruct (lazy_group_sound suffix rest g H) as (after & Hrest & Hne & Hnl).
  exists after. rewrite Hlit, Hrest. auto.
Qed.

Lemma re_search_sound (prefix suffix s g : string) :
  re_search prefix suffix s = Some g ->
  exists before after,
    s = before +:+ prefix +:+ g +:+ suffix +:+ after
    /\ g <> ""%string /\ has_newline g = false.
Proof.
  induction s as [|c rest IH]; rewrite re_search_unfold; intros H.
  - destruct (match_here prefix suffix "") as [g'|] eqn:Hm; [|discriminate].
    injection H as ->.
    destruct (match_here_sound _ _ _ _ Hm) as (after & Hs & Hne & Hnl).
    exists ""%string, after. auto.
  - destruct (match_here prefix suffix (String c rest)) as [g'|] eqn:Hm.
    + injection H as ->.
      destruct (match_here_sound _ _ _ _ Hm) as (after & Hs & Hne & Hnl).
      exists ""%string, after. auto.
    + destruct (IH H) as (before & after & Hs & Hne & Hnl).
      exists (String c before), after.
      split; [rewrite Hs at 1; reflexivity | auto].
Qed.

Lemma re_search_complete (prefix suffix before g after : string) :
  g <> ""%string ->
  has_newline g = false ->
  exists g',
    re_search prefix suffix (before +:+ prefix +:+ g +:+ suffix +:+ after)
    = Some g'.
Proof.
  intros Hne Hnl.
  assert (Hhere : exists g',
             match_here prefix suffix (prefix +:+ g +:+ suffix +:+ after)
             = Some g').
  { unfold match_here.
    rewrite (proj2 (after_literal_Some prefix _ (g +:+ suffix +:+ after))
               eq_refl).
    apply lazy_group_complete; assumption. }
  induction before as [|c before IH]; rewrite re_search_unfold.
  - change ("" +:+ prefix +:+ g +:+ suffix +:+ after)
      with (prefix +:+ g +:+ suffix +:+ after).
    destruct Hhere as [g' ->]. eauto.
  - clear Hhere.
    destruct (match_here prefix suffix _) as [g'|]; [eauto|].
    exact IH.
Qed.

(** X15.  [re.search] on the command patterns finds a room exactly when
    the text holds the opening word, then at least one character on
    the same line, then [" camera"]; and the room it returns is such a
    run of characters, taken from the text between an occurrence of
    the opening word and an occurrence of [" camera"]. *)
Theorem re_search_finds_rooms (prefix suffix s : string) :
  (re_search prefix suffix s <> None <-> matches prefix suffix s)
  /\ (forall g,
        re_search prefix suffix s = Some g ->
        exists before after,
          s = before +:+ prefix +:+ g +:+ suffix +:+ after
          /\ g <> ""%string /\ has_newline g = false).
Proof.
  split.
  - split.
    + destruct (re_search prefix suffix s) as [g|] eqn:H; [|congruence].
      intros _. destruct (re_search_sound _ _ _ _ H)
        as (before & after & Hs & Hne & Hnl).
      exists before, g, after. auto.
    + intros (before & g & after & -> & Hne & Hnl).
      destruct (re_search_complete prefix suffix before g after Hne Hnl)
        as [g' ->].
      discriminate.
  - intros g. apply re_search_sound.
Qed.

(** X16.  A describe or arm command in ASCII text for a room that
    [DEVICE_IDS] does not map -- or maps to an empty id -- is answered
    ["Unknown device for <room>"] without raising and without any
    request being sent. *)
Theorem unknown_room_sends_nothing (json_loads : string -> result value)
    (c : config) (net : network) (text g : string) (tr : list net_event) :
  isascii text = true ->
  re_search "describe " " camera" (lower text) = Some g
  \/ (re_search "describe " " camera" (lower text) = None
      /\ re_search "arm " " camera" (lower text) = Some g) ->
  no_device (_resolve c (strip g)) = true ->
  handle_command json_loads c net text tr
  = (Ok (Str ("Unknown device for " +:+ strip g)), tr).
Proof.
  intros _ Hmatch Hdev. unfold handle_command.
  destruct Hmatch as [Hd|[Hd Ha]].
  - rewrite Hd, Hdev. reflexivity.
  - rewrite Hd, Ha, Hdev. reflexivity.
Qed.

Lemma unknown_room_sends_nothing_witness :
  handle_command Samples.loads (Samples.base_config false) Samples.offline
    "Arm  Garage camera" []
  = (Ok (Str ("Unknown device for " +:+ strip " garage")), []).
Proof.
  apply (unknown_room_sends_nothing Samples.loads (Samples.base_config false)
           Samples.offline "Arm  Garage camera" " garage" []).
  - reflexivity.
  - right. split; reflexivity.
  - reflexivity.
Defined.

(** X17.  A command that does not contain [" camera"] in any letter
    case never reaches Scrypted through the patterns: it is passed,
    unchanged, to [llm.chat]. *)
Theorem no_camera_goes_to_chat (json_loads : string -> result value)
    (c : config) (net : network) (text : string) (tr : list net_event) :
  (forall before after, lower text <> before +:+ " camera" +:+ after) ->
  handle_command json_loads c net text tr
  = chat json_loads c net text None tr.
Proof.
  intros Hno.
  assert (Hnone : forall prefix,
             re_search prefix " camera" (lower text) = None).
  { intros prefix.
    destruct (re_search prefix " camera" (lower text)) as [g|] eqn:H;
      [|reflexivity].
    destruct (re_search_sound _ _ _ _ H) as (before & after & Hs & _).
    exfalso. apply (Hno (before +:+ prefix +:+ g) after).
    rewrite Hs, !append_assoc. reflexivity. }
  unfold handle_command. rewrite !Hnone. reflexivity.
Qed.

Lemma no_camera_goes_to_chat_witness :
  handle_command Samples.loads (Samples.base_config false)
    (Samples.answering (Samples.reply "hello")) "Hi" []
  = chat Samples.loads (Samples.base_config false)
      (Samples.answering (Samples.reply "hello")) "Hi" None [].
Proof.
  apply (no_camera_goes_to_chat Samples.loads (Samples.base_config false)
           (Samples.answering (Samples.reply "hello")) "Hi" []).
  intros before after H.
  destruct before as [|x [|y [|z before]]]; discriminate.
Defined.

Lemma lower_ascii_idem (c : Ascii.ascii) :
  lower_ascii (lower_ascii c) = lower_ascii c.
Proof.
  destruct c as [[] [] [] [] [] [] [] []]; reflexivity.
Qed.

Lemma lower_idem (s : string) : lower (lower s) = lower s.
Proof.
  induction s as [|c s IH]; simpl; [reflexivity|].
  rewrite lower_ascii_idem, IH. reflexivity.
Qed.

(** X18.  The command patterns ignore letter case: whenever the describe
    or the arm pattern matches the lower-cased text, [handle_command]
    does on the text exactly what it does on its lower-cased form. *)
Theorem command_patterns_ignore_case (json_loads : string -> result value)
    (c : config) (net : network) (text : string) (tr : list net_event) :
  re_search "describe " " camera" (lower text) <> None
  \/ re_search "arm " " camera" (lower text) <> None ->
  handle_command json_loads c net text tr
  = handle_command json_loads c net (lower text) tr.
Proof.
  intros Hmatch. unfold handle_command. rewrite lower_idem.
  destruct (re_search "describe " " camera" (lower text)); [reflexivity|].
  destruct (re_search "arm " " camera" (lower text)); [reflexivity|].
  destruct Hmatch as [H|H]; congruence.
Qed.

Lemma command_patterns_ignore_case_witness :
  handle_command Samples.loads (Samples.base_config false) Samples.offline
    "DESCRIBE Kitchen CAMERA" []
  = handle_command Samples.loads (Samples.base_config false) Samples.offline
      (lower "DESCRIBE Kitchen CAMERA") [].
Proof.
  apply (command_patterns_ignore_case Samples.loads
           (Samples.base_config false) Samples.offline
           "DESCRIBE Kitchen CAMERA" []).
  left. discriminate.
Defined.

Lemma bind_run {A B} (m : N A) (f : A -> N B) (tr : list net_event) :
  (m ≫= f) tr
  = match m tr with
    | (Ok a, tr') => f a tr'
    | (Err e, tr') => (Err e, tr')
    end.
Proof. reflexivity. Qed.

Lemma snapshot_ok c net device_id tok snap tr :
  Scrypted._headers c = Ok tok ->
  net (ScryptedSnapshot device_id) = Ok snap ->
  error_status (status_code snap) = false ->
  Scrypted.snapshot c net device_id tr
  = (Ok (content snap), tr ++ [Http (ScryptedSnapshot device_id)]).
Proof.
  intros Hh Hnet Hs. unfold error_status in Hs.
  cbv [Scrypted.snapshot mbind N_bind mret N_ret lift http raise_for_status].
  rewrite Hh, Hnet, Hs. reflexivity.
Qed.

Lemma analyze_image_ok net prompt image seen (reply message : gmap string value)
    answer tr :
  net (OllamaChat prompt image) = Ok seen ->
  error_status (status_code seen) = false ->
  body seen = Ok (Obj reply) ->
  reply !! "message" = Some (Obj message) ->
  message !! "content" = Some answer ->
  Vlm.analyze_image net prompt image tr
  = (Ok answer, tr ++ [Http (OllamaChat prompt image)]).
Proof.
  intros Hnet Hs Hbody Hmsg Hcontent. unfold error_status in Hs.
  cbv [Vlm.analyze_image mbind N_bind mret N_ret lift http raise_for_status
       get].
  rewrite Hnet, Hs, Hbody, Hmsg. simpl. rewrite Hcontent. reflexivity.
Qed.

(** X19.  A describe command in ASCII text for a mapped room sends two
    requests and
    no more: the snapshot request for the mapped device, then the
    vision request, which carries exactly the bytes of that snapshot
    and the prompt ["Describe the <room> camera"]; the answer is the
    content of the vision model's message. *)
Theorem describe_sends_snapshot_to_vision
    (json_loads : string -> result value) (c : config) (net : network)
    (text g dev tok : string) (tr : list net_event)
    (snap seen : response) (reply message : gmap string value)
    (answer : value) :
  isascii text = true ->
  re_search "describe " " camera" (lower text) = Some g ->
  _resolve c (strip g) = Some dev ->
  dev <> ""%string ->
  Scrypted._headers c = Ok tok ->
  net (ScryptedSnapshot (Str dev)) = Ok snap ->
  error_status (status_code snap) = false ->
  net (OllamaChat (Str ("Describe the " +:+ strip g +:+ " camera"))
         (content snap)) = Ok seen ->
  error_status (status_code seen) = false ->
  body seen = Ok (Obj reply) ->
  reply !! "message" = Some (Obj message) ->
  message !! "content" = Some answer ->
  handle_command json_loads c net text tr
  = (Ok answer,
     tr ++ [Http (ScryptedSnapshot (Str dev));
            Http (OllamaChat
                    (Str ("Describe the " +:+ strip g +:+ " camera"))
                    (content snap))]).
Proof.
  intros _ Hre Hdev Hne Hh Hsnap Hs1 Hseen Hs2 Hbody Hmsg Hcontent.
  unfold error_status in Hs1, Hs2.
  unfold handle_command. rewrite Hre, Hdev.
  assert (Hno : no_device (Some dev) = false).
  { simpl. apply String.eqb_neq. exact Hne. }
  rewrite Hno. simpl default.
  rewrite bind_run, (snapshot_ok c net (Str dev) tok snap tr Hh Hsnap Hs1).
  rewrite (analyze_image_ok net _ _ seen reply message answer _
             Hseen Hs2 Hbody Hmsg Hcontent).
  rewrite <- app_assoc. reflexivity.
Qed.

Lemma describe_sends_snapshot_to_vision_witness :
  let c := {| SCRYPTED_URL := Some "http://host"%string;
              SCRYPTED_TOKEN := Some "token"%string;
              WAKEWORD := "hey_nova"; VOICE := "en_US";
              DEVICE_IDS := {[ "kitchen"%string := "cam1"%string ]};
              USE_PUSH_TO_TALK := false; PTT_KEY := "F9" |} in
  let seen := {| status_code := 200; content := [];
                 body := Ok (Obj {[ "message"%string :=
                                      Obj {[ "content"%string :=
                                               Str "A cat on the counter." ]}
                                 ]}) |} in
  let net := fun r =>
               match r with
               | ScryptedSnapshot _ =>
                   Ok {| status_code := 200; content := [255; 216];
                         body := Err (Exception "JSONDecodeError" "") |}
               | _ => Ok seen
               end in
  handle_command Samples.loads c net "Describe kitchen camera" []
  = (Ok (Str "A cat on the counter."),
     [] ++ [Http (ScryptedSnapshot (Str "cam1"));
            Http (OllamaChat
                    (Str ("Describe the " +:+ strip "kitchen" +:+ " camera"))
                    [255; 216])]).
Proof.
  intros c seen net.
  apply (describe_sends_snapshot_to_vision Samples.loads c net
           "Describe kitchen camera" "kitchen" "cam1" "Bearer token" []
           {| status_code := 200; content := [255; 216];
              body := Err (Exception "JSONDecodeError" "") |}
           seen
           {[ "message"%string :=
                Obj {[ "content"%string := Str "A cat on the counter." ]} ]}
           {[ "content"%string := Str "A cat on the counter." ]}
           (Str "A cat on the counter.")).
  - reflexivity.
  - reflexivity.
  - reflexivity.
  - discriminate.
  - reflexivity.
  - reflexivity.
  - reflexivity.
  - reflexivity.
  - reflexivity.
  - reflexivity.
  - reflexivity.
  - reflexivity.
Defined.

(** ** Transcription *)

Lemma join_app (sep : string) (l1 l2 : list string) :
  l1 <> [] -> l2 <> [] ->
  join sep (l1 ++ l2) = join sep l1 +:+ sep +:+ join sep l2.
Proof.
  intros H1 H2. induction l1 as [|a l1 IH]; [congruence|].
  destruct l1 as [|b l1].
  - destruct l2 as [|c l2]; [congruence | reflexivity].
  - change (join sep ((a :: b :: l1) ++ l2))
      with (a +:+ sep +:+ join sep ((b :: l1) ++ l2)).
    rewrite IH by discriminate.
    change (join sep (a :: b :: l1)) with (a +:+ sep +:+ join sep (b :: l1)).
    rewrite !append_assoc. reflexivity.
Qed.

Lemma lstrip_fixed (s : string) :
  lstrip s = s ->
  match s with
  | EmptyString => True
  | String c _ => isspace c = false
  end.
Proof.
  assert (Hlen : forall t, (String.length (lstrip t) <= String.length t)%nat).
  { induction t as [|c t IH]; simpl; [lia|].
    destruct (isspace c); simpl; lia. }
  destruct s as [|c rest]; [trivial|]. simpl.
  destruct (isspace c); [|reflexivity].
  intros H. pose proof (Hlen rest) as Hl. rewrite H in Hl. simpl in Hl. lia.
Qed.

Lemma lstrip_lstrip (s : string) : lstrip (lstrip s) = lstrip s.
Proof.
  induction s as [|c s IH]; simpl; [reflexivity|].
  destruct (isspace c) eqn:Hc; [exact IH|]. simpl. rewrite Hc. reflexivity.
Qed.

Lemma rstrip_rstrip (s : string) : rstrip (rstrip s) = rstrip s.
Proof.
  induction s as [|c s IH]; [reflexivity|].
  cbn [rstrip]. destruct (rstrip s) as [|d kept] eqn:Hk.
  - destruct (isspace c) eqn:Hc; [reflexivity|].
    cbn [rstrip]. rewrite Hc. reflexivity.
  - cbn [rstrip]. cbn [rstrip] in IH. rewrite IH. reflexivity.
Qed.

Lemma lstrip_rstrip (s : string) :
  lstrip s = s -> lstrip (rstrip s) = rstrip s.
Proof.
  intros H. apply lstrip_fixed in H.
  destruct s as [|c rest]; [reflexivity|].
  cbn [rstrip]. destruct (rstrip rest) as [|d kept].
  - rewrite H. simpl. rewrite H. reflexivity.
  - simpl. rewrite H. reflexivity.
Qed.

Lemma strip_strip (s : string) : strip (strip s) = strip s.
Proof.
  unfold strip.
  rewrite (lstrip_rstrip (lstrip s) (lstrip_lstrip s)).
  apply rstrip_rstrip.
Qed.

(** X20.  On segments of ASCII text, [transcribe] puts exactly one
    space between the texts of consecutive segments, and the white
    space around a segment does not count: the transcript of two runs of segments is the
    transcript of the first, a space, and the transcript of the second,
    and segments that are already stripped give the same transcript. *)
Theorem transcribe_joins_stripped_segments (segs1 segs2 : list string) :
  Forall (fun seg => isascii seg = true) (segs1 ++ segs2) ->
  segs1 <> [] ->
  segs2 <> [] ->
  Stt.transcribe (Ok (segs1 ++ segs2))
  = Ok (join " " (map strip segs1) +:+ " " +:+ join " " (map strip segs2))
  /\ Stt.transcribe (Ok (map strip (segs1 ++ segs2)))
     = Stt.transcribe (Ok (segs1 ++ segs2)).
Proof.
  intros _ H1 H2. unfold Stt.transcribe. split.
  - rewrite map_app, join_app; [reflexivity | |].
    + destruct segs1; [congruence | discriminate].
    + destruct segs2; [congruence | discriminate].
  - f_equal. f_equal. rewrite <- list_fmap_compose.
    apply list_fmap_ext. intros _ s _. apply strip_strip.
Qed.

Lemma transcribe_joins_stripped_segments_witness :
  Stt.transcribe
    (Ok ([" describe"%string] ++ ["kitchen  "%string; " camera "%string]))
  = Ok (join " " (map strip [" describe"%string]) +:+ " "
          +:+ join " " (map strip ["kitchen  "%string; " camera "%string]))
  /\ Stt.transcribe
       (Ok (map strip ([" describe"%string]
                         ++ ["kitchen  "%string; " camera "%string])))
     = Stt.transcribe
         (Ok ([" describe"%string]
                ++ ["kitchen  "%string; " camera "%string])).
Proof.
  apply (transcribe_joins_stripped_segments
           [" describe"%string] ["kitchen  "%string; " camera "%string]).
  - repeat constructor.
  - discriminate.
  - discriminate.
Defined.

(** ** Speech synthesis *)

Module TtsFacts.
Import Tts.

(** The command line [speak] runs for [text], if it finds an engine:
    [tts] when it is installed, [piper] otherwise. *)
Definition command_line (sh : shell) (text : string)
  : option (list string) :=
  if which_tts sh
  then Some ["tts"; "--text"; text; "--out_path"; out]%string
  else if which_piper sh
  then Some ["piper"; "--text"; text; "--output_file"; out]%string
  else None.

End TtsFacts.
Import Tts TtsFacts.

(** [speak], step by step. *)
Lemma speak_steps (sh : shell) (dev : result unit)
    (text : string) (s : tts_state) :
  match command_line sh text with
  | None =>
      speak sh dev text s
      = (Raise (RuntimeError "No TTS engine available"), s)
  | Some cmd =>
      commands (snd (speak sh dev text s)) = commands s ++ [cmd]
      /\ match fst (subprocess_run sh cmd) with
         | Err e =>
             fst (speak sh dev text s) = Raise e
             /\ played (sound (snd (speak sh dev text s)))
                = played (sound s)
         | Ok _ =>
             speak sh dev text s
             = (let a := {| files := snd (subprocess_run sh cmd) (files (sound s));
                            played := played (sound s) |} in
                let r := play_wav dev out a in
                (match fst r with
                 | Ret _ => Ret out
                 | Raise e => Raise e
                 | Blocked => Blocked
                 end,
                 {| sound := snd r; commands := commands s ++ [cmd] |}))
         end
  end.
Proof.
  unfold command_line, speak, _run_cmd.
  destruct (which_tts sh).
  - destruct (fst (subprocess_run sh _)) as [u|e]; simpl.
    + destruct (play_wav dev out _) as [[u'|e|] a]; split; reflexivity.
    + repeat split.
  - destruct (which_piper sh); [|reflexivity].
    destruct (fst (subprocess_run sh _)) as [u|e]; simpl.
    + destruct (play_wav dev out _) as [[u'|e|] a]; split; reflexivity.
    + repeat split.
Qed.

(** X21.  [speak] synthesises before it plays, with one engine only:
    without [tts] and [piper] it raises [RuntimeError] and changes
    nothing; otherwise it runs exactly one command ([tts] when it is
    installed, whether or not [piper] is), and when that command raises
    the exception is passed on and nothing is played -- not even a
    [reply.wav] left by an earlier call. *)
Theorem speak_synthesises_first (sh : shell) (dev : result unit)
    (text : string) (s : tts_state) :
  match command_line sh text with
  | None =>
      speak sh dev text s
      = (Raise (RuntimeError "No TTS engine available"), s)
  | Some cmd =>
      commands (snd (speak sh dev text s)) = commands s ++ [cmd]
      /\ (forall e,
            fst (subprocess_run sh cmd) = Err e ->
            fst (speak sh dev text s) = Raise e
            /\ played (sound (snd (speak sh dev text s)))
               = played (sound s))
  end.
Proof.
  pose proof (speak_steps sh dev text s) as H.
  destruct (command_line sh text) as [cmd|]; [|exact H].
  destruct H as [Hcmd H]. split; [exact Hcmd|].
  intros e He. rewrite He in H. exact H.
Qed.

(** X22.  What [speak] plays is what the engine left in [reply.wav]:
    when the command returns and the file is then a 16-bit container
    whose data are the bytes of in-range samples, [speak] hands exactly
    those samples to the output device at the file's frame rate and
    returns the path. *)
Theorem speak_plays_the_synthesised_file (sh : shell) (text : string)
    (s : tts_state) (cmd : list string) (ch rate : Z) (samples : list Z)
    (frames : Z) :
  command_line sh text = Some cmd ->
  fst (subprocess_run sh cmd) = Ok tt ->
  snd (subprocess_run sh cmd) (files (sound s)) !! out
  = Some (Some {| nchannels := ch; sampwidth := 2; framerate := rate;
                  frames_data := tobytes samples |}) ->
  0 < ch ->
  Z.of_nat (length samples) = frames * ch ->
  Forall (fun z => -32768 <= z < 32768) samples ->
  speak sh (Ok tt) text s
  = (Ret out,
     {| sound := {| files := snd (subprocess_run sh cmd) (files (sound s));
                    played := played (sound s) ++ [(samples, rate)] |};
        commands := commands s ++ [cmd] |}).
Proof.
  intros Hcmd Hrun Hfile Hch Hlen Hrange.
  pose proof (speak_steps sh (Ok tt) text s) as H.
  rewrite Hcmd in H. destruct H as [_ H]. rewrite Hrun in H. rewrite H.
  clear H. simpl.
  unfold play_wav. simpl. rewrite Hfile. simpl.
  destruct (ch <? 1) eqn:Hc1; [apply Z.ltb_lt in Hc1; lia|]. simpl.
  destruct (readframes_all ch rate samples frames Hch Hlen) as [_ Hall].
  rewrite Hall, (frombuffer_tobytes_in_range samples Hrange).
  reflexivity.
Qed.

Lemma speak_plays_the_synthesised_file_witness :
  let wav := {| nchannels := 1; sampwidth := 2; framerate := 22050;
                frames_data := tobytes [0; 1000; -1000] |} in
  let sh := {| which_tts := false; which_piper := true;
               subprocess_run := fun _ => (Ok tt, fun fs => <[out := Some wav]> fs) |} in
  let s := {| sound := Samples.no_audio; commands := [] |} in
  let cmd := ["piper"; "--text"; "hello"; "--output_file"; out]%string in
  speak sh (Ok tt) "hello" s
  = (Ret out,
     {| sound := {| files := snd (subprocess_run sh cmd) (files (sound s));
                    played := played (sound s)
                                ++ [([0; 1000; -1000], 22050)] |};
        commands := commands s ++ [cmd] |}).
Proof.
  intros wav sh s cmd.
  apply (speak_plays_the_synthesised_file sh "hello" s cmd 1 22050
           [0; 1000; -1000] 3).
  - reflexivity.
  - reflexivity.
  - reflexivity.
  - lia.
  - reflexivity.
  - repeat constructor; lia.
Defined.

(** ** The aquarium optimiser *)

Import Aquarium.

(** X25.  The sink test does not look at the model: for an object
    whose bounding box has a volume, [simulate_sink_or_float] returns
    whether the material density is above 1.0, whatever the
    dimensions; for a flat object -- some dimension is zero -- it
    raises [ZeroDivisionError]. *)
Theorem sink_test_ignores_geometry (obj : object) (density : Q) :
  simulate_sink_or_float obj density
  = if Qeq_bool (dim_x obj) 0 || Qeq_bool (dim_y obj) 0
       || Qeq_bool (dim_z obj) 0
    then Err ZeroDivisionError
    else Ok (Qgtb density 1).
Proof.
  unfold simulate_sink_or_float.
  set (vol := (dim_x obj * 100 * (dim_y obj * 100) * (dim_z obj * 100))%Q).
  destruct (Qeq_bool vol 0) eqn:Hvol.
  - apply Qeq_bool_eq in Hvol.
    destruct (Qeq_bool (dim_x obj) 0) eqn:Hx; [reflexivity|].
    destruct (Qeq_bool (dim_y obj) 0) eqn:Hy; [reflexivity|].
    destruct (Qeq_bool (dim_z obj) 0) eqn:Hz; [reflexivity|].
    apply Qeq_bool_neq in Hx, Hy, Hz. exfalso.
    unfold vol in Hvol.
    assert (H1 : (dim_x obj * (dim_y obj * dim_z obj) == 0)%Q).
    { assert (E : (dim_x obj * (dim_y obj * dim_z obj)
                   == dim_x obj * 100 * (dim_y obj * 100)
                      * (dim_z obj * 100) * (1 # 1000000))%Q) by ring.
      rewrite E, Hvol. ring. }
    apply Qmult_integral in H1 as [H1|H1]; [exact (Hx H1)|].
    apply Qmult_integral in H1 as [H1|H1]; [exact (Hy H1) | exact (Hz H1)].
  - assert (Hnz : ~ (vol == 0)%Q).
    { apply Qeq_bool_neq. exact Hvol. }
    assert (Hx : Qeq_bool (dim_x obj) 0 = false).
    { destruct (Qeq_bool (dim_x obj) 0) eqn:H; [|reflexivity].
      apply Qeq_bool_eq in H. exfalso. apply Hnz. unfold vol.
      rewrite H. ring. }
    assert (Hy : Qeq_bool (dim_y obj) 0 = false).
    { destruct (Qeq_bool (dim_y obj) 0) eqn:H; [|reflexivity].
      apply Qeq_bool_eq in H. exfalso. apply Hnz. unfold vol.
      rewrite H. ring. }
    assert (Hz : Qeq_bool (dim_z obj) 0 = false).
    { destruct (Qeq_bool (dim_z obj) 0) eqn:H; [|reflexivity].
      apply Qeq_bool_eq in H. exfalso. apply Hnz. unfold vol.
      rewrite H. ring. }
    rewrite Hx, Hy, Hz. simpl. f_equal.
    assert (Hd : (vol * density / vol == density)%Q) by (field; exact Hnz).
    destruct (Qgtb density 1) eqn:Hg.
    + apply Qgtb_true. apply Qgtb_true in Hg. rewrite Hd. exact Hg.
    + apply Qgtb_false. apply Qgtb_false in Hg. rewrite Hd. exact Hg.
Qed.
